(** * Video transcriber: transcript codec, pipeline adapters and worker loop

    A shallow embedding of [transcription.py], [worker.py], [models.py] and
    the [retry] / enqueue handlers of [app.py], with the properties of the
    scheduler, the job state machine and the text / subtitle renderings. *)

From Stdlib Require Import List Sorted ZArith NArith QArith Qround Lia Lqa
  Bool Permutation.
From Stdlib Require Import Strings.String Strings.Ascii.
Import ListNotations.
Close Scope Q_scope.
Open Scope list_scope.

(** ** Python strings

    A Python [str] is a sequence of Unicode code points; [bytes] is a
    sequence of octets. *)

Definition str := list N.
Definition bytes := list N.

(** An ASCII literal of the source, as a [str]. *)
Definition lit (s : string) : str :=
  map N_of_ascii (list_ascii_of_string s).

Definition LF : N := 10%N.

(** [str.isspace] on one code point: CPython's white-space table. *)
Definition isspace (c : N) : bool :=
  ((9 <=? c) && (c <=? 13) || (28 <=? c) && (c <=? 32)
   || (c =? 133) || (c =? 160) || (c =? 5760)
   || (8192 <=? c) && (c <=? 8202)
   || (c =? 8232) || (c =? 8233) || (c =? 8239) || (c =? 8287)
   || (c =? 12288))%N.

Fixpoint lstrip (s : str) : str :=
  match s with
  | [] => []
  | c :: t => if isspace c then lstrip t else s
  end.

Definition rstrip (s : str) : str := rev (lstrip (rev s)).

(** [s.strip()] *)
Definition strip (s : str) : str := rstrip (lstrip s).

(** [sep.join(parts)] *)
Fixpoint join (sep : str) (parts : list str) : str :=
  match parts with
  | [] => []
  | p :: rest =>
      match rest with
      | [] => p
      | _ :: _ => p ++ sep ++ join sep rest
      end
  end.

(** [s[:n]] *)
Definition slice_to (n : nat) (s : str) : str := firstn n s.
Arguments slice_to : simpl never.

(** ** Python integers in format strings *)

Fixpoint uint_digits (d : Decimal.uint) : str :=
  (match d with
   | Decimal.Nil => []
   | Decimal.D0 r => 48 :: uint_digits r
   | Decimal.D1 r => 49 :: uint_digits r
   | Decimal.D2 r => 50 :: uint_digits r
   | Decimal.D3 r => 51 :: uint_digits r
   | Decimal.D4 r => 52 :: uint_digits r
   | Decimal.D5 r => 53 :: uint_digits r
   | Decimal.D6 r => 54 :: uint_digits r
   | Decimal.D7 r => 55 :: uint_digits r
   | Decimal.D8 r => 56 :: uint_digits r
   | Decimal.D9 r => 57 :: uint_digits r
   end)%N.

Definition str_of_N (n : N) : str := uint_digits (N.to_uint n).

(** [f"{i}"] for an [int]. *)
Definition str_of_int (z : Z) : str :=
  if (z <? 0)%Z then 45%N :: str_of_N (Z.abs_N z) else str_of_N (Z.abs_N z).

(** [f"{z:0Wd}"]: decimal, zero-padded to a minimum width [W]; the sign of
    a negative number counts in the width and stays in front of the zeros. *)
Definition format_0d (width : nat) (z : Z) : str :=
  let ds := str_of_N (Z.abs_N z) in
  if (z <? 0)%Z
  then 45%N :: repeat 48%N (width - 1 - List.length ds) ++ ds
  else repeat 48%N (width - List.length ds) ++ ds.

(** ** Python floats

    Every binary64 value is a rational number, and the model computes on
    rationals.  On binary64 arguments below 2^53 in magnitude the source's
    [//], [%], [int()] and the subtraction of the integer part are exact, so
    they agree with the definitions here; the product by [1000] is rounded by
    the machine to a binary64, which agrees with the exact product whenever
    that product is itself a binary64. *)

Definition float := Q.

(** [x // y] *)
Definition floordiv (x y : float) : float := inject_Z (Qfloor (x / y)).

(** [x % y]: the remainder takes the sign of the divisor. *)
Definition pymod (x y : float) : float :=
  (x - y * inject_Z (Qfloor (x / y)))%Q.

(** [int(x)]: truncation towards zero. *)
Definition int_of_float (x : float) : Z := Z.quot (Qnum x) (Zpos (Qden x)).

(** [round(x)]: nearest integer, a tie goes to the even neighbour. *)
Definition round_float (x : float) : Z :=
  let f := Qfloor x in
  match ((x - inject_Z f) ?= (1 # 2))%Q with
  | Lt => f
  | Gt => (f + 1)%Z
  | Eq => if Z.even f then f else (f + 1)%Z
  end.

(** ** Transcript codec ([transcription.py]) *)

Record Segment := mkSegment {
  seg_start : float;
  seg_end : float;
  seg_text : str
}.

Definition format_srt_time (seconds : float) : str :=
  let hrs := int_of_float (floordiv seconds 3600%Q) in
  let mins := int_of_float (floordiv (pymod seconds 3600%Q) 60%Q) in
  let secs := int_of_float (pymod seconds 60%Q) in
  let millis :=
    round_float ((seconds - inject_Z (int_of_float seconds)) * 1000)%Q in
  format_0d 2 hrs ++ lit ":" ++ format_0d 2 mins ++ lit ":"
    ++ format_0d 2 secs ++ lit "," ++ format_0d 3 millis.

Definition segments_to_text (segments : list Segment) : str :=
  join [LF] (map (fun seg => strip (seg_text seg)) segments).

(** An open text file is the buffer of what was written so far;
    [open(path, "w")] starts from the empty buffer and [f.write] appends. *)
Definition file_write (f : str) (s : str) : str := f ++ s.

(** The loop of [write_txt] over the open file [f]. *)
Definition write_txt_body (segments : list Segment) (f : str) : str :=
  fold_left (fun f seg => file_write f (strip (seg_text seg) ++ [LF]))
            segments f.

(** [enumerate(l, start)] *)
Fixpoint enumerate {A : Type} (start : Z) (l : list A) : list (Z * A) :=
  match l with
  | [] => []
  | x :: t => (start, x) :: enumerate (start + 1)%Z t
  end.

(** One entry of the subtitle file: [f"{i}\n{start} --> {end}\n{text}\n\n"]. *)
Definition srt_entry (i : Z) (seg : Segment) : str :=
  let start := format_srt_time (seg_start seg) in
  let end_ := format_srt_time (seg_end seg) in
  let text := strip (seg_text seg) in
  str_of_int i ++ [LF] ++ start ++ lit " --> " ++ end_ ++ [LF]
    ++ text ++ [LF] ++ [LF].

(** The loop of [write_srt] over the open file [f]. *)
Definition write_srt_body (segments : list Segment) (f : str) : str :=
  fold_left (fun f p => file_write f (srt_entry (fst p) (snd p)))
            (enumerate 1 segments) f.

(** ** Exceptions and results

    Every exception the pipeline meets is an instance of [Exception]; each
    constructor carries what [str(exc)] renders. *)

Inductive exn :=
| FileNotFoundError (msg : str)
| CalledProcessError (msg : str) (returncode : Z) (stdout stderr : bytes)
| UnicodeDecodeError (msg : str)
| ValueError (msg : str)
| RuntimeError (msg : str)
| OpenAIError (msg : str)
| OSError (msg : str).

(** [str(exc)] *)
Definition str_of_exn (e : exn) : str :=
  match e with
  | FileNotFoundError m | CalledProcessError m _ _ _ | UnicodeDecodeError m
  | ValueError m | RuntimeError m | OpenAIError m | OSError m => m
  end.

Inductive result (A : Type) :=
| Ok (a : A)
| Raise (e : exn).
Arguments Ok {A} a.
Arguments Raise {A} e.

(** ** Files

    The file system as far as the program sees it: the paths that exist,
    with their contents. *)

Definition fs := list (str * list N).

Definition str_eqb (a b : str) : bool :=
  if list_eq_dec N.eq_dec a b then true else false.

(** [os.path.exists(path)] *)
Definition path_exists (path : str) (files : fs) : bool :=
  existsb (fun e => str_eqb (fst e) path) files.

(** [os.unlink(path)] *)
Definition unlink (path : str) (files : fs) : fs :=
  filter (fun e => negb (str_eqb (fst e) path)) files.

(** The effect of a completed [open(path, "w")] ... [write] on the files. *)
Definition put_file (path : str) (content : list N) (files : fs) : fs :=
  (path, content) :: unlink path files.

Definition read_file (path : str) (files : fs) : option (list N) :=
  option_map snd (find (fun e => str_eqb (fst e) path) files).

(** Computations over a state [S] that may raise; what was done to the state
    before an exception stays done. *)
Definition St (S A : Type) := S -> result A * S.

Definition ret {S A : Type} (a : A) : St S A := fun s => (Ok a, s).
Definition raise {S A : Type} (e : exn) : St S A := fun s => (Raise e, s).
Definition bind {S A B : Type} (m : St S A) (k : A -> St S B) : St S B :=
  fun s =>
    match m s with
    | (Ok a, s') => k a s'
    | (Raise e, s') => (Raise e, s')
    end.

(** [try: m  except ... as exc: handler exc]; [handler] is [None] on the
    exceptions that no clause catches. *)
Definition try_except {S A : Type} (m : St S A)
  (handler : exn -> option (St S A)) : St S A :=
  fun s =>
    match m s with
    | (Ok a, s') => (Ok a, s')
    | (Raise e, s') =>
        match handler e with
        | Some k => k s'
        | None => (Raise e, s')
        end
    end.

(** The adapters of [transcription.py] act on the files. *)
Definition M (A : Type) := St fs A.

Declare Scope py_scope.
Delimit Scope py_scope with py.
Notation "x <- m ;; k" := (bind m (fun x => k))
  (at level 61, m at next level, right associativity) : py_scope.
Notation "m ;;; k" := (bind m (fun _ => k))
  (at level 61, right associativity) : py_scope.

(** ** The host: operating system, Python library and remote service *)

(** [bytes.decode()]: strict UTF-8. *)
Definition is_cont (b : N) : bool := ((128 <=? b) && (b <=? 191))%N.

Fixpoint utf8_decode (b : bytes) : option str :=
  (match b with
   | [] => Some []
   | b1 :: t1 =>
       if b1 <? 128 then option_map (cons b1) (utf8_decode t1)
       else if (194 <=? b1) && (b1 <=? 223) then
         match t1 with
         | b2 :: t2 =>
             if is_cont b2
             then option_map (cons ((b1 - 192) * 64 + (b2 - 128)))
                             (utf8_decode t2)
             else None
         | [] => None
         end
       else if (224 <=? b1) && (b1 <=? 239) then
         match t1 with
         | b2 :: b3 :: t3 =>
             let lo := if b1 =? 224 then 160 else 128 in
             let hi := if b1 =? 237 then 159 else 191 in
             if (lo <=? b2) && (b2 <=? hi) && is_cont b3
             then option_map
                    (cons ((b1 - 224) * 4096 + (b2 - 128) * 64 + (b3 - 128)))
                    (utf8_decode t3)
             else None
         | _ => None
         end
       else if (240 <=? b1) && (b1 <=? 244) then
         match t1 with
         | b2 :: b3 :: b4 :: t4 =>
             let lo := if b1 =? 240 then 144 else 128 in
             let hi := if b1 =? 244 then 143 else 191 in
             if (lo <=? b2) && (b2 <=? hi) && is_cont b3 && is_cont b4
             then option_map
                    (cons ((b1 - 240) * 262144 + (b2 - 128) * 4096
                           + (b3 - 128) * 64 + (b4 - 128)))
                    (utf8_decode t4)
             else None
         | _ => None
         end
       else None
   end)%N.

(** The text of the [UnicodeDecodeError] is abbreviated: CPython adds the
    offending byte and its position. *)
Definition bytes_decode (b : bytes) : result str :=
  match utf8_decode b with
  | Some s => Ok s
  | None => Raise (UnicodeDecodeError (lit "'utf-8' codec can't decode bytes"))
  end.

(** What a child process leaves behind when it has run to its end. *)
Record CompletedProcess := mkCompleted {
  returncode : Z;
  stdout : bytes;
  stderr : bytes;
  written : list (str * list N)   (* files the tool wrote *)
}.

Record Host := mkHost {
  (* shutil.which(name) *)
  which : str -> option str;
  (* glob.glob(_WINGET_FFMPEG_GLOB) and os.path.isfile on its candidates *)
  winget_bin_dirs : list str;
  isfile : str -> bool;
  (* os.path.join, os.path.splitext(...)[0], os.path.basename *)
  path_join : str -> str -> str;
  splitext_base : str -> str;
  basename : str -> str;
  (* launching argv: the exception of a launch that fails
     ([FileNotFoundError] when there is no such executable), or the
     completed process *)
  exec : list str -> result CompletedProcess;
  (* tempfile.mkstemp(suffix): the name of the file it creates *)
  mkstemp : str -> fs -> str;
  (* decoding of captured output in text mode (the locale's encoding) *)
  locale_decode : bytes -> result str;
  (* float(s): None when it raises ValueError *)
  float_of_str : str -> option float;
  (* os.environ.get("OPENAI_API_KEY") *)
  openai_api_key : option str;
  (* the transcription service on the content of an audio file *)
  whisper : list N -> result (list Segment);
  (* os.makedirs(dir, exist_ok=True) and open(path, "w"): the error, if any *)
  makedirs_error : str -> option exn;
  open_w_error : str -> option exn
}.

Definition lift_result {A : Type} (r : result A) : M A :=
  fun files => (r, files).

(** The child runs to its end and its output is captured. *)
Definition communicate (h : Host) (argv : list str) : M CompletedProcess :=
  fun files =>
    match exec h argv with
    | Raise e => (Raise e, files)
    | Ok cp =>
        (Ok cp,
         fold_left (fun f w => put_file (fst w) (snd w) f) (written cp) files)
    end.

(** [check=True]; the text of the error is abbreviated (CPython quotes the
    command). *)
Definition check_returncode (cp : CompletedProcess) : M unit :=
  if (returncode cp =? 0)%Z then ret tt
  else raise (CalledProcessError
                (lit "Command returned non-zero exit status "
                   ++ str_of_int (returncode cp) ++ lit ".")
                (returncode cp) (stdout cp) (stderr cp)).

(** [subprocess.run(argv, check=True, capture_output=True)] *)
Definition subprocess_run (h : Host) (argv : list str)
  : M CompletedProcess :=
  (cp <- communicate h argv ;;
   check_returncode cp ;;;
   ret cp)%py.

(** [subprocess.run(argv, capture_output=True, text=True, check=True)]:
    the captured output is decoded before the exit status is checked. *)
Definition subprocess_run_text (h : Host) (argv : list str)
  : M (str * str) :=
  (cp <- communicate h argv ;;
   out <- lift_result (locale_decode h (stdout cp)) ;;
   err <- lift_result (locale_decode h (stderr cp)) ;;
   check_returncode cp ;;;
   ret (out, err))%py.

(** ** Pipeline adapters ([transcription.py]) *)

(** A [str] in a condition is true when it is not empty. *)
Definition truthy (s : str) : bool :=
  match s with [] => false | _ :: _ => true end.

Definition _find_tool (h : Host) (name : str) : str :=
  let fallback :=
    match find (isfile h)
               (map (fun bin_dir => path_join h bin_dir (name ++ lit ".exe"))
                    (winget_bin_dirs h)) with
    | Some candidate => candidate
    | None => name
    end in
  match which h name with
  | Some found => if truthy found then found else fallback
  | None => fallback
  end.

Definition ffprobe_argv (h : Host) (path : str) : list str :=
  [_find_tool h (lit "ffprobe"); lit "-v"; lit "error";
   lit "-show_entries"; lit "format=duration";
   lit "-of"; lit "default=noprint_wrappers=1:nokey=1";
   path].

(** [except Exception] catches every exception of the model. *)
Definition get_video_duration (h : Host) (path : str) : M (option float) :=
  try_except
    (out <- subprocess_run_text h (ffprobe_argv h path) ;;
     match float_of_str h (strip (fst out)) with
     | Some d => ret (Some d)
     | None => raise (ValueError (lit "could not convert string to float"))
     end)%py
    (fun _ => Some (ret None)).

Definition ffmpeg_argv (h : Host) (video_path audio_path : str) : list str :=
  [_find_tool h (lit "ffmpeg"); lit "-y";
   lit "-i"; video_path;
   lit "-vn";
   lit "-acodec"; lit "libmp3lame";
   lit "-q:a"; lit "4";
   audio_path].

Definition ffmpeg_not_found : str :=
  lit "FFmpeg not found. Install it and ensure it is on your PATH.".

Definition extract_audio (h : Host) (video_path : str) : M str :=
  fun files =>
    let audio_path := mkstemp h (lit ".mp3") files in
    let created := put_file audio_path [] files in
    try_except
      (subprocess_run h (ffmpeg_argv h video_path audio_path) ;;;
       ret audio_path)%py
      (fun exc =>
         match exc with
         | FileNotFoundError _ =>
             Some (fun f => (Raise (RuntimeError ffmpeg_not_found),
                             unlink audio_path f))
         | CalledProcessError _ _ _ err =>
             Some (fun f =>
                     let f' := unlink audio_path f in
                     match bytes_decode err with
                     | Ok d =>
                         (Raise (RuntimeError
                                   (lit "Error extracting audio: " ++ d)), f')
                     | Raise e => (Raise e, f')
                     end)
         | _ => None
         end)
      created.

Definition openai_missing_key : str :=
  lit "The api_key client option must be set either by passing api_key to the client or by setting the OPENAI_API_KEY environment variable".

(** [OpenAI()]: the client's constructor raises when it finds no key. *)
Definition OpenAI (h : Host) : M unit :=
  match openai_api_key h with
  | Some _ => ret tt
  | None => raise (OpenAIError openai_missing_key)
  end.

Definition transcribe_audio (h : Host) (audio_path : str)
  : M (list Segment) :=
  (OpenAI h ;;;
   fun files =>
     match read_file audio_path files with
     | None => (Raise (FileNotFoundError
                         (lit "[Errno 2] No such file or directory")), files)
     | Some content => (whisper h content, files)
     end)%py.

(** [with open(output_path, "w", encoding="utf-8") as f: body]: opening
    may fail; the file then holds what [body] wrote. *)
Definition with_open_w (h : Host) (output_path : str) (body : str -> str)
  : M unit :=
  fun files =>
    match open_w_error h output_path with
    | Some e => (Raise e, files)
    | None => (Ok tt, put_file output_path (body []) files)
    end.

Definition write_txt (h : Host) (segments : list Segment)
  (output_path : str) : M unit :=
  with_open_w h output_path (write_txt_body segments).

Definition write_srt (h : Host) (segments : list Segment)
  (output_path : str) : M unit :=
  with_open_w h output_path (write_srt_body segments).

(** [os.makedirs(path, exist_ok=True)] *)
Definition makedirs (h : Host) (path : str) : M unit :=
  match makedirs_error h path with
  | Some e => raise e
  | None => ret tt
  end.

(** ** The job record ([models.py]) *)

Inductive Status := pending | processing | done | failed.

Definition status_eqb (a b : Status) : bool :=
  match a, b with
  | pending, pending | processing, processing | done, done
  | failed, failed => true
  | _, _ => false
  end.

(** [segments_json] holds the segment list that [json.dumps] serialises and
    [json.loads] reads back; [created_at] and [processed_at] are times in
    micro-seconds since the epoch. *)
Record Video := mkVideo {
  id : Z;
  filename : str;
  filepath : str;
  folder : str;
  duration_seconds : option float;
  status : Status;
  error_message : option str;
  transcript_text : option str;
  transcript_preview : option str;
  segments_json : option (list Segment);
  txt_path : option str;
  srt_path : option str;
  created_at : Z;
  processed_at : option Z
}.

(** Attribute assignments [video.<field> = x]. *)
Definition set_duration_seconds (x : option float) (v : Video) : Video :=
  mkVideo (id v) (filename v) (filepath v) (folder v) x (status v)
          (error_message v) (transcript_text v) (transcript_preview v)
          (segments_json v) (txt_path v) (srt_path v) (created_at v)
          (processed_at v).
Definition set_status (x : Status) (v : Video) : Video :=
  mkVideo (id v) (filename v) (filepath v) (folder v) (duration_seconds v) x
          (error_message v) (transcript_text v) (transcript_preview v)
          (segments_json v) (txt_path v) (srt_path v) (created_at v)
          (processed_at v).
Definition set_error_message (x : option str) (v : Video) : Video :=
  mkVideo (id v) (filename v) (filepath v) (folder v) (duration_seconds v)
          (status v) x (transcript_text v) (transcript_preview v)
          (segments_json v) (txt_path v) (srt_path v) (created_at v)
          (processed_at v).
Definition set_transcript_text (x : option str) (v : Video) : Video :=
  mkVideo (id v) (filename v) (filepath v) (folder v) (duration_seconds v)
          (status v) (error_message v) x (transcript_preview v)
          (segments_json v) (txt_path v) (srt_path v) (created_at v)
          (processed_at v).
Definition set_transcript_preview (x : option str) (v : Video) : Video :=
  mkVideo (id v) (filename v) (filepath v) (folder v) (duration_seconds v)
          (status v) (error_message v) (transcript_text v) x
          (segments_json v) (txt_path v) (srt_path v) (created_at v)
          (processed_at v).
Definition set_segments_json (x : option (list Segment)) (v : Video) : Video :=
  mkVideo (id v) (filename v) (filepath v) (folder v) (duration_seconds v)
          (status v) (error_message v) (transcript_text v)
          (transcript_preview v) x (txt_path v) (srt_path v) (created_at v)
          (processed_at v).
Definition set_txt_path (x : option str) (v : Video) : Video :=
  mkVideo (id v) (filename v) (filepath v) (folder v) (duration_seconds v)
          (status v) (error_message v) (transcript_text v)
          (transcript_preview v) (segments_json v) x (srt_path v)
          (created_at v) (processed_at v).
Definition set_srt_path (x : option str) (v : Video) : Video :=
  mkVideo (id v) (filename v) (filepath v) (folder v) (duration_seconds v)
          (status v) (error_message v) (transcript_text v)
          (transcript_preview v) (segments_json v) (txt_path v) x
          (created_at v) (processed_at v).
Definition set_processed_at (x : option Z) (v : Video) : Video :=
  mkVideo (id v) (filename v) (filepath v) (folder v) (duration_seconds v)
          (status v) (error_message v) (transcript_text v)
          (transcript_preview v) (segments_json v) (txt_path v) (srt_path v)
          (created_at v) x.

(** ** The job store

    The table is the list of its rows in rowid order. *)

(** [db.session.commit()] of a changed [video]: its row takes the object's
    attributes. *)
Definition db_commit (video : Video) (rows : list Video) : list Video :=
  map (fun r => if (id r =? id video)%Z then video else r) rows.

(** [db.get_or_404(Video, video_id)]: [None] stands for the 404 answer. *)
Definition db_get (video_id : Z) (rows : list Video) : option Video :=
  find (fun r => (id r =? video_id)%Z) rows.

(** [Video.query.filter_by(filepath=filepath).first()] *)
Definition query_by_filepath (path : str) (rows : list Video)
  : option Video :=
  find (fun r => str_eqb (filepath r) path) rows.

(** [.filter_by(status=st)] *)
Definition filter_by_status (st : Status) (rows : list Video) : list Video :=
  filter (fun r => status_eqb (status r) st) rows.

(** [.order_by(Video.created_at.asc())]: the store scans the table in rowid
    order and sorts on the key alone; rows of equal key keep their scan
    order. *)
Fixpoint insert_by_created_at (v : Video) (sorted : list Video)
  : list Video :=
  match sorted with
  | [] => [v]
  | u :: rest =>
      if (created_at v <=? created_at u)%Z then v :: u :: rest
      else u :: insert_by_created_at v rest
  end.

Definition order_by_created_at_asc (rows : list Video) : list Video :=
  fold_right insert_by_created_at [] rows.

(** [.first()] *)
Definition first (rows : list Video) : option Video := hd_error rows.

(** ** The worker ([worker.py]) *)

(** The variables of one pass of the loop body: the session's [video]
    object, the table, the files and [audio_path]. *)
Record Frame := mkFrame {
  fr_video : Video;
  fr_rows : list Video;
  fr_files : fs;
  fr_audio_path : option str
}.

Definition W (A : Type) := St Frame A.

Definition in_files {A : Type} (m : M A) : W A :=
  fun fr =>
    let (r, files') := m (fr_files fr) in
    (r, mkFrame (fr_video fr) (fr_rows fr) files' (fr_audio_path fr)).

Definition the_video : W Video := fun fr => (Ok (fr_video fr), fr).

Definition the_files : W fs := fun fr => (Ok (fr_files fr), fr).

Definition assign (f : Video -> Video) : W unit :=
  fun fr =>
    (Ok tt, mkFrame (f (fr_video fr)) (fr_rows fr) (fr_files fr)
                    (fr_audio_path fr)).

Definition assign_audio_path (p : str) : W unit :=
  fun fr =>
    (Ok tt, mkFrame (fr_video fr) (fr_rows fr) (fr_files fr) (Some p)).

Definition db_session_commit : W unit :=
  fun fr =>
    (Ok tt, mkFrame (fr_video fr) (db_commit (fr_video fr) (fr_rows fr))
                    (fr_files fr) (fr_audio_path fr)).

(** "Get duration if missing": the first statement of the [try] block. *)
Definition probe_if_missing (h : Host) : W unit :=
  (video <- the_video ;;
   match duration_seconds video with
   | None =>
       d <- in_files (get_video_duration h (filepath video)) ;;
       assign (set_duration_seconds d) ;;;
       db_session_commit
   | Some _ => ret tt
   end)%py.

(** The [try] block of the loop body. *)
Definition job_try (h : Host) (root_path : str) (now : Z) : W unit :=
  (video <- the_video ;;
   probe_if_missing h ;;;
   (* Extract audio *)
   audio_path <- in_files (extract_audio h (filepath video)) ;;
   assign_audio_path audio_path ;;;
   (* Transcribe *)
   segments <- in_files (transcribe_audio h audio_path) ;;
   let seg_dicts := segments in
   (* Build output paths *)
   let output_dir := path_join h root_path (lit "output") in
   in_files (makedirs h output_dir) ;;;
   let base := splitext_base h (filename video) in
   let txt_path0 := path_join h output_dir (base ++ lit "_transcript.txt") in
   let srt_path0 := path_join h output_dir (base ++ lit "_transcript.srt") in
   (* Handle duplicate filenames by appending the video id *)
   files <- the_files ;;
   let duplicate := path_exists txt_path0 files || path_exists srt_path0 files in
   let txt_path :=
     if duplicate
     then path_join h output_dir
            (base ++ lit "_" ++ str_of_int (id video) ++ lit "_transcript.txt")
     else txt_path0 in
   let srt_path :=
     if duplicate
     then path_join h output_dir
            (base ++ lit "_" ++ str_of_int (id video) ++ lit "_transcript.srt")
     else srt_path0 in
   in_files (write_txt h seg_dicts txt_path) ;;;
   in_files (write_srt h seg_dicts srt_path) ;;;
   (* Update record *)
   let full_text := segments_to_text seg_dicts in
   assign (set_transcript_text (Some full_text)) ;;;
   assign (set_transcript_preview (Some (slice_to 200 full_text))) ;;;
   assign (set_segments_json (Some seg_dicts)) ;;;
   assign (set_txt_path (Some txt_path)) ;;;
   assign (set_srt_path (Some srt_path)) ;;;
   assign (set_status done) ;;;
   assign (set_processed_at (Some now)) ;;;
   db_session_commit)%py.

(** The [except Exception as exc] block. *)
Definition job_except (now : Z) (exc : exn) : W unit :=
  (assign (set_status failed) ;;;
   assign (set_error_message (Some (str_of_exn exc))) ;;;
   assign (set_processed_at (Some now)) ;;;
   db_session_commit)%py.

(** The [finally] block. *)
Definition job_finally : W unit :=
  fun fr =>
    match fr_audio_path fr with
    | Some audio_path =>
        if truthy audio_path && path_exists audio_path (fr_files fr)
        then (Ok tt, mkFrame (fr_video fr) (fr_rows fr)
                             (unlink audio_path (fr_files fr))
                             (fr_audio_path fr))
        else (Ok tt, fr)
    | None => (Ok tt, fr)
    end.

(** [try: body  except Exception as exc: handler exc  finally: final] *)
Definition try_except_finally {S : Type} (body : St S unit)
  (handler : exn -> St S unit) (final : St S unit) : St S unit :=
  fun s =>
    let (r, s1) := try_except body (fun exc => Some (handler exc)) s in
    match final s1 with
    | (Ok _, s2) => (r, s2)
    | (Raise e, s2) => (Raise e, s2)
    end.

(** Lines 39-89: one claimed job, from [audio_path = None] to the end of
    [finally]. *)
Definition run_job (h : Host) (root_path : str) (now : Z) (video : Video)
  (rows : list Video) (files : fs) : result unit * Frame :=
  try_except_finally (job_try h root_path now) (job_except now) job_finally
    (mkFrame video rows files None).

(** ** The scheduler

    The process state: the module globals of [worker.py], the threads, the
    table and the files.  [starting] counts the callers of
    [start_processing] that have set the flag and not yet started their
    thread. *)

(** Where a worker thread stands in [_process_videos]. *)
Inductive pc :=
| AtLoop                      (* before the query of line 27 *)
| Selected (video : Video)    (* the query returned [video] *)
| Claimed (video : Video)     (* marked processing and committed *)
| Leaving.                    (* out of the loop, before line 91 *)

Record State := mkState {
  _running : bool;
  starting : nat;
  workers : list pc;
  rows : list Video;
  next_id : Z;
  files : fs
}.

(** One step of a worker thread standing at [p]; the new position is [None]
    when the thread has ended.  [now] is the clock when the step runs. *)
Definition worker_step (h : Host) (root_path : str) (now : Z) (p : pc)
  (s : State) : option pc * State :=
  match p with
  | AtLoop =>
      match first (order_by_created_at_asc
                     (filter_by_status pending (rows s))) with
      | None => (Some Leaving, s)
      | Some video => (Some (Selected video), s)
      end
  | Selected video =>
      let video := set_status processing video in
      (Some (Claimed video),
       mkState (_running s) (starting s) (workers s)
               (db_commit video (rows s)) (next_id s) (files s))
  | Claimed video =>
      match run_job h root_path now video (rows s) (files s) with
      | (Ok _, fr) =>
          (Some AtLoop,
           mkState (_running s) (starting s) (workers s)
                   (fr_rows fr) (next_id s) (fr_files fr))
      | (Raise _, fr) =>
          (* an exception that leaves the loop body ends the thread *)
          (None,
           mkState (_running s) (starting s) (workers s)
                   (fr_rows fr) (next_id s) (fr_files fr))
      end
  | Leaving =>
      (None,
       mkState false (starting s) (workers s) (rows s) (next_id s) (files s))
  end.

(** [_process_videos(app)] run by a thread on its own; the clock readings
    bound the number of steps. *)
Fixpoint run_worker (h : Host) (root_path : str) (clock : list Z) (p : pc)
  (s : State) : option State :=
  match clock with
  | [] => None
  | now :: later =>
      match worker_step h root_path now p s with
      | (None, s') => Some s'
      | (Some p', s') => run_worker h root_path later p' s'
      end
  end.

Definition _process_videos (h : Host) (root_path : str) (clock : list Z)
  (s : State) : option State :=
  run_worker h root_path clock AtLoop s.

(** The locked region of [start_processing]: whether the caller goes on to
    start a thread. *)
Definition guard (s : State) : bool * State :=
  if _running s then (false, s)
  else (true,
        mkState true (S (starting s)) (workers s) (rows s) (next_id s)
                (files s)).

(** [t.start()] *)
Definition thread_start (s : State) : State :=
  mkState (_running s) (pred (starting s)) (workers s ++ [AtLoop]) (rows s)
          (next_id s) (files s).

Definition start_processing (s : State) : State :=
  let (go, s') := guard s in
  if go then thread_start s' else s'.

(** ** The handlers of [app.py] that touch the store *)

(** The body of the loop of [scan]: a file already in the table is skipped,
    a new one becomes a pending row; the store gives it the next id and the
    clock's time. *)
Definition enqueue (h : Host) (now : Z) (folder_ path : str) (s : State)
  : result State :=
  match query_by_filepath path (rows s) with
  | Some _ => Ok s
  | None =>
      match get_video_duration h path (files s) with
      | (Raise e, _) => Raise e
      | (Ok d, files') =>
          let video :=
            mkVideo (next_id s) (basename h path) path folder_ d
                    pending None None None None None None now None in
          Ok (mkState (_running s) (starting s) (workers s)
                      (rows s ++ [video]) (next_id s + 1)%Z files')
      end
  end.

(** The store update of [retry]. *)
Definition retry_commit (video_id : Z) (s : State) : State :=
  match db_get video_id (rows s) with
  | None => s
  | Some video =>
      if status_eqb (status video) failed then
        let video :=
          set_processed_at None
            (set_error_message None (set_status pending video)) in
        mkState (_running s) (starting s) (workers s)
                (db_commit video (rows s)) (next_id s) (files s)
      else s
  end.

(** [retry(video_id)] *)
Definition retry (video_id : Z) (s : State) : State :=
  match db_get video_id (rows s) with
  | None => s
  | Some video =>
      if status_eqb (status video) failed
      then start_processing (retry_commit video_id s)
      else s
  end.

(** ** Interleavings

    The request handlers and the worker threads run concurrently; a step of
    the process is one of their atomic actions. *)

Definition set_workers (ws : list pc) (s : State) : State :=
  mkState (_running s) (starting s) ws (rows s) (next_id s) (files s).

Definition after (p : option pc) : list pc :=
  match p with Some p' => [p'] | None => [] end.

Inductive step (h : Host) (root_path : str) : State -> State -> Prop :=
| step_guard : forall s,
    step h root_path s (snd (guard s))
| step_thread_start : forall s,
    (0 < starting s)%nat ->
    step h root_path s (thread_start s)
| step_worker : forall s now before p later p' s',
    workers s = before ++ p :: later ->
    worker_step h root_path now p s = (p', s') ->
    step h root_path s (set_workers (before ++ after p' ++ later) s')
| step_enqueue : forall s now folder_ path s',
    enqueue h now folder_ path s = Ok s' ->
    step h root_path s s'
| step_retry : forall s video_id,
    step h root_path s (retry_commit video_id s).

(** A row as [scan] and [upload] create it, or as the worker leaves it. *)
Definition outputs_none (v : Video) : Prop :=
  transcript_text v = None /\ segments_json v = None
  /\ txt_path v = None /\ srt_path v = None.

Definition outputs_all (v : Video) : Prop :=
  transcript_text v <> None /\ segments_json v <> None
  /\ txt_path v <> None /\ srt_path v <> None.

Definition row_ok (v : Video) : Prop :=
  match status v with
  | pending => outputs_none v
  | processing => outputs_none v
  | failed => outputs_none v /\ error_message v <> None
              /\ processed_at v <> None
  | done => outputs_all v /\ processed_at v <> None
  end.

(** The ids of the table: strictly increasing in rowid order and below the
    next autoincrement value. *)
Definition ids_ok (rows : list Video) (next : Z) : Prop :=
  StronglySorted Z.lt (map id rows)
  /\ Forall (fun i => (i < next)%Z) (map id rows).

(** The process as it starts: no worker, the flag down, and a table in
    which no job is in flight. *)
Definition initial (s : State) : Prop :=
  _running s = false /\ starting s = 0%nat /\ workers s = []
  /\ ids_ok (rows s) (next_id s)
  /\ Forall row_ok (rows s)
  /\ filter_by_status processing (rows s) = [].

Inductive reachable (h : Host) (root_path : str) : State -> Prop :=
| reach_initial : forall s, initial s -> reachable h root_path s
| reach_step : forall s s',
    reachable h root_path s -> step h root_path s s' ->
    reachable h root_path s'.

(** ** The command line ([transcribe.py]) *)

(** How the single-video program ends: [sys.exit(code)] or the end of
    [main] (status 0), or an exception that nothing catches. *)
Inductive cli_outcome :=
| Exit (code : Z)
| Uncaught (e : exn).

(** [extract_audio] of [transcribe.py]: it launches the bare name [ffmpeg]
    and exits where the web version raises. *)
Definition cli_extract_audio (h : Host) (video_path : str) (fls : fs)
  : (cli_outcome + str) * fs :=
  let audio_path := mkstemp h (lit ".mp3") fls in
  let created := put_file audio_path [] fls in
  let argv :=
    [lit "ffmpeg"; lit "-y"; lit "-i"; video_path; lit "-vn";
     lit "-acodec"; lit "libmp3lame"; lit "-q:a"; lit "4"; audio_path] in
  match subprocess_run h argv created with
  | (Ok _, f) => (inr audio_path, f)
  | (Raise (FileNotFoundError _), f) => (inl (Exit 1), unlink audio_path f)
  | (Raise (CalledProcessError _ _ _ err), f) =>
      match bytes_decode err with
      | Ok _ => (inl (Exit 1), unlink audio_path f)
      | Raise e => (inl (Uncaught e), unlink audio_path f)
      end
  | (Raise e, f) => (inl (Uncaught e), f)
  end.

(** [main()] on the argument [video_path]; what it prints is left out. *)
Definition main (h : Host) (video_path : str) (fls : fs)
  : cli_outcome * fs :=
  if negb (isfile h video_path) then (Exit 1, fls)
  else if negb (match openai_api_key h with
                | Some key => truthy key
                | None => false
                end) then (Exit 1, fls)
  else
    let base := splitext_base h video_path in
    let txt_path := base ++ lit "_transcript.txt" in
    let srt_path := base ++ lit "_transcript.srt" in
    match cli_extract_audio h video_path fls with
    | (inl out, f1) => (out, f1)
    | (inr audio_path, f1) =>
        let (r, f2) :=
          (segments <- transcribe_audio h audio_path ;;
           write_txt h segments txt_path ;;;
           write_srt h segments srt_path)%py f1 in
        (* finally: os.unlink(audio_path) *)
        (match r with Ok _ => Exit 0 | Raise e => Uncaught e end,
         unlink audio_path f2)
    end.

(** A step of the proofs about [job_try]: case analysis on the result of
    the innermost adapter call. *)
Ltac run_step :=
  match goal with
  | |- context [let (_, _) := ?m in _] =>
      lazymatch m with
      | context [let (_, _) := _ in _] => fail
      | _ => destruct m as [[?|?] ?]; simpl
      end
  end.

(** The attributes that the worker never assigns. *)
Definition same_job (v v' : Video) : Prop :=
  id v' = id v /\ filename v' = filename v /\ filepath v' = filepath v
  /\ folder v' = folder v /\ created_at v' = created_at v.

(** What a worker holds in its [video] variable has no outputs yet. *)
Definition pc_ok (p : pc) : Prop :=
  match p with
  | Selected v | Claimed v => outputs_none v
  | AtLoop | Leaving => True
  end.

Definition claimed_id (p : pc) (i : Z) : Prop :=
  match p with
  | Claimed v => id v = i
  | _ => False
  end.

(** The invariant of the process: at most one worker exists, and only while
    the flag is up; a row in [processing] is the one that worker holds. *)
Record invariant (s : State) : Prop := mkInvariant {
  inv_ids : ids_ok (rows s) (next_id s);
  inv_rows : Forall row_ok (rows s);
  inv_threads :
    (List.length (workers s) + starting s
     <= if _running s then 1 else 0)%nat;
  inv_pcs : Forall pc_ok (workers s);
  inv_processing :
    forall r, In r (rows s) -> status r = processing ->
              exists p, In p (workers s) /\ claimed_id p (id r)
}.

(** The extraction tool is not installed: launching it on [video_path]
    fails with [FileNotFoundError], whatever the output file. *)
Definition ffmpeg_absent (h : Host) (video_path : str) : Prop :=
  forall audio_path, exists m,
    exec h (ffmpeg_argv h video_path audio_path)
    = Raise (FileNotFoundError m).

Definition pending_count (tbl : list Video) : nat :=
  List.length (filter_by_status pending tbl).

(** A row after the worker has run, against the row before: left as it
    was, or replaced by a [done] or [failed] row of the same id. *)
Definition settled (r r' : Video) : Prop :=
  id r' = id r /\ (r' = r \/ status r' = done \/ status r' = failed).

(** ** Sample hosts and inputs *)

Module Sample.

Definition ok_process (out : bytes) (wrote : list (str * list N))
  : CompletedProcess :=
  mkCompleted 0 out [] wrote.

(** The last argument of a command line: the output file of ffmpeg. *)
Definition last_arg (argv : list str) : str := last argv [].

Definition is_tool (name : string) (argv : list str) : bool :=
  match argv with
  | tool :: _ => str_eqb tool (lit name)
  | [] => false
  end.

(** A host that finds every tool under its bare name; the two tools and the
    service answer as given. *)
Definition host (ffprobe ffmpeg : list str -> result CompletedProcess)
  (key : option str) (segments : list Segment) : Host :=
  mkHost
    (fun name => Some name)
    []
    (fun _ => false)
    (fun a b => a ++ lit "/" ++ b)
    (fun name => firstn (List.length name - 4) name)
    (fun path => path)
    (fun argv => if is_tool "ffprobe" argv then ffprobe argv else ffmpeg argv)
    (fun suffix _ => lit "/tmp/tmp0" ++ suffix)
    (fun b => bytes_decode b)
    (fun s => if str_eqb s (lit "12.5") then Some (25 # 2)%Q else None)
    key
    (fun _ => Ok segments)
    (fun _ => None)
    (fun _ => None).

(** ffprobe prints [12.5]; ffmpeg writes three octets of audio. *)
Definition ffprobe_ok (argv : list str) : result CompletedProcess :=
  Ok (ok_process (lit "12.5" ++ [LF]) []).

Definition ffmpeg_ok (argv : list str) : result CompletedProcess :=
  Ok (ok_process [] [(last_arg argv, [1; 2; 3]%N)]).

Definition tool_absent (argv : list str) : result CompletedProcess :=
  Raise (FileNotFoundError (lit "[Errno 2] No such file or directory")).

(** ffmpeg exits with status 1 and these octets on its standard error. *)
Definition ffmpeg_fails (err : bytes) (argv : list str)
  : result CompletedProcess :=
  Ok (mkCompleted 1 [] err []).

Definition hello_world : list Segment :=
  [mkSegment 0%Q 1%Q (lit " Hello "); mkSegment 1%Q 2%Q (lit "world")].

Definition good_host : Host :=
  host ffprobe_ok ffmpeg_ok (Some (lit "sk-test")) hello_world.
Definition host_without_ffmpeg : Host :=
  host ffprobe_ok tool_absent (Some (lit "sk-test")) hello_world.
Definition host_without_ffprobe : Host :=
  host tool_absent ffmpeg_ok (Some (lit "sk-test")) hello_world.
Definition host_without_key : Host :=
  host ffprobe_ok ffmpeg_ok None hello_world.

Definition new_video (i : Z) (name : string) (t : Z) : Video :=
  mkVideo i (lit name) (lit "/videos/" ++ lit name) (lit "/videos")
          (Some (25 # 2)%Q) pending None None None None None None t None.

Definition start_state (table : list Video) (next : Z) : State :=
  mkState false 0 [] table next [].

Definition clock_from (t : Z) (n : nat) : list Z :=
  map (fun k => (t + Z.of_nat k)%Z) (seq 0 n).

End Sample.

(** ** The rest of the web application ([app.py], [transcription.py]) *)

(** [_format_timestamp(seconds)]: [divmod] on integers rounds towards minus
    infinity, as [Z.div] and [Z.modulo] do for a positive divisor. *)
Definition _format_timestamp (seconds : float) : str :=
  let s := int_of_float seconds in
  let h := (s / 3600)%Z in
  let s := (s mod 3600)%Z in
  let m := (s / 60)%Z in
  let s := (s mod 60)%Z in
  format_0d 2 h ++ lit ":" ++ format_0d 2 m ++ lit ":" ++ format_0d 2 s.

(** *** Paths *)

(** [s.rfind(c)]: the index of the last [c] in [s], or -1. *)
Fixpoint rfind_from (c : N) (s : str) (i found : Z) : Z :=
  match s with
  | [] => found
  | x :: t => rfind_from c t (i + 1) (if (x =? c)%N then i else found)
  end.

Definition rfind (c : N) (s : str) : Z := rfind_from c s 0 (-1).

(** [s[i:j]] for [0 <= i] *)
Definition slice (i j : Z) (s : str) : str :=
  firstn (Z.to_nat (j - i)) (skipn (Z.to_nat i) s).

Definition DOT : N := 46%N.

(** [os.path.splitext(p)] with the separators of the platform: the
    extension starts at the last dot, provided that dot comes after the last
    separator and after a character of the file name that is not a dot. *)
Definition splitext (sep : N) (altsep : option N) (p : str) : str * str :=
  let sepIndex :=
    match altsep with
    | Some a => Z.max (rfind sep p) (rfind a p)
    | None => rfind sep p
    end in
  let dotIndex := rfind DOT p in
  if (sepIndex <? dotIndex)%Z
     && existsb (fun x => negb (x =? DOT)%N) (slice (sepIndex + 1) dotIndex p)
  then (firstn (Z.to_nat dotIndex) p, skipn (Z.to_nat dotIndex) p)
  else (p, []).

(** [a <= b] on [str]: code point by code point. *)
Fixpoint str_leb (a b : str) : bool :=
  match a, b with
  | [], _ => true
  | _ :: _, [] => false
  | x :: a', y :: b' =>
      if (x <? y)%N then true
      else if (y <? x)%N then false
      else str_leb a' b'
  end.

Fixpoint insert_str (x : str) (sorted : list str) : list str :=
  match sorted with
  | [] => [x]
  | y :: rest =>
      if str_leb x y then x :: y :: rest else y :: insert_str x rest
  end.

(** [results.sort()] on a list of [str]. *)
Definition sort_strs (l : list str) : list str := fold_right insert_str [] l.

(** *** Folder scan ([transcription.py]) *)

Definition VIDEO_EXTENSIONS : list str :=
  [lit ".mp4"; lit ".avi"; lit ".mkv"; lit ".mov"; lit ".webm";
   lit ".flv"; lit ".wmv"; lit ".m4v"; lit ".mpg"; lit ".mpeg"].

(** [x in VIDEO_EXTENSIONS] *)
Definition is_video_extension (ext : str) : bool :=
  existsb (str_eqb ext) VIDEO_EXTENSIONS.

(** An [os.DirEntry]. *)
Record DirEntry := mkDirEntry {
  entry_name : str;
  entry_path : str;
  entry_is_file : bool
}.

(** What the folder scan and the search ask of the platform. *)
Record Platform := mkPlatform {
  (* os.sep and os.altsep *)
  os_sep : N;
  os_altsep : option N;
  (* os.path.isdir(path) *)
  isdir : str -> bool;
  (* os.scandir(path): the entries, or the error it raises *)
  scandir : str -> result (list DirEntry);
  (* str.lower() *)
  lower : str -> str
}.

(** The test of the loop of [scan_folder]. *)
Definition is_video_entry (p : Platform) (entry : DirEntry) : bool :=
  entry_is_file entry
  && is_video_extension
       (lower p (snd (splitext (os_sep p) (os_altsep p) (entry_name entry)))).

Definition scan_folder (p : Platform) (path : str) : result (list str) :=
  if negb (isdir p path)
  then Raise (ValueError (lit "Not a valid directory: " ++ path))
  else
    match scandir p path with
    | Raise e => Raise e
    | Ok entries =>
        Ok (sort_strs (map entry_path (filter (is_video_entry p) entries)))
    end.

(** *** The [scan] handler ([app.py]) *)

(** [flash(message, category)] *)
Record Flash := mkFlash {
  flash_message : str;
  flash_category : str
}.

(** The loop [for filepath in paths] of [scan]; [clock k] is the time at
    which the row of the [k]-th added file is created. *)
Fixpoint scan_loop (h : Host) (clock : nat -> Z) (folder_ : str)
  (paths : list str) (added : nat) (s : State) : result (nat * State) :=
  match paths with
  | [] => Ok (added, s)
  | path :: rest =>
      match query_by_filepath path (rows s) with
      | Some _ => scan_loop h clock folder_ rest added s
      | None =>
          match enqueue h (clock added) folder_ path s with
          | Raise e => Raise e
          | Ok s' => scan_loop h clock folder_ rest (S added) s'
          end
      end
  end.

(** [scan()] on the form field [folder]; the answer is always the redirect
    to the index, so the result is the new state and the flashed message. *)
Definition scan (h : Host) (p : Platform) (clock : nat -> Z)
  (form_folder : str) (s : State) : result (State * Flash) :=
  let folder_ := strip form_folder in
  if negb (truthy folder_) || negb (isdir p folder_)
  then Ok (s, mkFlash (lit "Invalid folder path.") (lit "danger"))
  else
    match scan_folder p folder_ with
    | Raise (ValueError m) => Ok (s, mkFlash m (lit "danger"))
    | Raise e => Raise e
    | Ok [] =>
        Ok (s, mkFlash (lit "No video files found in that folder.")
                       (lit "warning"))
    | Ok paths =>
        match scan_loop h clock folder_ paths 0 s with
        | Raise e => Raise e
        | Ok (added, s') =>
            if (0 <? added)%nat
            then Ok (start_processing s',
                     mkFlash (lit "Added " ++ str_of_int (Z.of_nat added)
                                ++ lit " video(s) for processing.")
                             (lit "success"))
            else Ok (s',
                     mkFlash
                       (lit "All videos in that folder are already in the database.")
                       (lit "info"))
        end
    end.

(** *** [download] *)

Inductive Response :=
| NotFound404
| SendFile (path : str)
| RedirectDetail (f : Flash).

(** An optional [str] in a condition: true when set and not empty. *)
Definition set_and_truthy (o : option str) : bool :=
  match o with
  | Some s => truthy s
  | None => false
  end.

Definition download (video_id : Z) (file_type : str) (s : State)
  : Response :=
  match db_get video_id (rows s) with
  | None => NotFound404
  | Some video =>
      if str_eqb file_type (lit "txt") && set_and_truthy (txt_path video)
      then SendFile (match txt_path video with Some p => p | None => [] end)
      else if str_eqb file_type (lit "srt")
              && set_and_truthy (srt_path video)
      then SendFile (match srt_path video with Some p => p | None => [] end)
      else RedirectDetail (mkFlash (lit "File not available.")
                                   (lit "warning"))
  end.

(** *** Listings: [index] and [api_status] *)

(** [.order_by(Video.created_at.desc())]: as for the ascending order, rows
    of equal key keep their scan order. *)
Fixpoint insert_by_created_at_desc (v : Video) (sorted : list Video)
  : list Video :=
  match sorted with
  | [] => [v]
  | u :: rest =>
      if (created_at u <=? created_at v)%Z then v :: u :: rest
      else u :: insert_by_created_at_desc v rest
  end.

Definition order_by_created_at_desc (rows : list Video) : list Video :=
  fold_right insert_by_created_at_desc [] rows.

(** [.count()] *)
Definition count (rows : list Video) : nat := List.length rows.

Record Counts := mkCounts {
  count_done : nat;
  count_processing : nat;
  count_pending : nat;
  count_failed : nat
}.

(** One entry of the [videos] list of the JSON answer. *)
Record VideoSummary := mkSummary {
  sum_id : Z;
  sum_filename : str;
  sum_folder : str;
  sum_duration_seconds : option float;
  sum_status : Status;
  sum_transcript_preview : option str
}.

Definition summary (v : Video) : VideoSummary :=
  mkSummary (id v) (filename v) (folder v) (duration_seconds v) (status v)
            (transcript_preview v).

(** [api_status()]: the arguments of [jsonify]. *)
Definition api_status (s : State) : Counts * list VideoSummary :=
  let videos := order_by_created_at_desc (rows s) in
  let counts :=
    mkCounts (count (filter_by_status done (rows s)))
             (count (filter_by_status processing (rows s)))
             (count (filter_by_status pending (rows s)))
             (count (filter_by_status failed (rows s))) in
  (counts, map summary videos).

(** [index()]: the values handed to the template. *)
Definition index (s : State) : list Video * Counts :=
  let videos := order_by_created_at_desc (rows s) in
  let counts :=
    mkCounts (count (filter_by_status done (rows s)))
             (count (filter_by_status processing (rows s)))
             (count (filter_by_status pending (rows s)))
             (count (filter_by_status failed (rows s))) in
  (videos, counts).

(** *** [detail] *)

(** One entry of [segments]. *)
Record DetailSegment := mkDetailSegment {
  ds_index : Z;
  ds_timestamp : str;
  ds_text : str
}.

(** [detail(video_id)]: [None] stands for the 404 answer, otherwise the
    values handed to the template. *)
Definition detail (video_id : Z) (s : State)
  : option (Video * list DetailSegment) :=
  match db_get video_id (rows s) with
  | None => None
  | Some video =>
      let segments :=
        match segments_json video with
        | Some raw =>
            fold_left
              (fun segments ie =>
                 segments
                 ++ [mkDetailSegment (fst ie)
                       (_format_timestamp (seg_start (snd ie)))
                       (seg_text (snd ie))])
              (enumerate 0 raw) []
        | None => []
        end in
      Some (video, segments)
  end.

(** *** [search] *)

(** [needle in haystack] on [str]. *)
Fixpoint starts_with (needle hay : str) : bool :=
  match needle, hay with
  | [], _ => true
  | _ :: _, [] => false
  | x :: n', y :: h' => (x =? y)%N && starts_with n' h'
  end.

Fixpoint contains (needle hay : str) : bool :=
  starts_with needle hay
  || match hay with
     | [] => false
     | _ :: h' => contains needle h'
     end.

(** One entry of [matches]. *)
Record Match := mkMatch {
  match_index : Z;
  match_timestamp : str;
  match_text : str
}.

(** The loop over the segments of one video; [highlight] stands for
    [_highlight], whose regular-expression substitution is not modelled. *)
Definition find_matches (p : Platform) (highlight : str -> str -> str)
  (query : str) (segments : list Segment) : list Match :=
  fold_left
    (fun matches ie =>
       let idx := fst ie in
       let seg := snd ie in
       if contains (lower p query) (lower p (seg_text seg))
       then matches ++ [mkMatch idx (_format_timestamp (seg_start seg))
                                (highlight (seg_text seg) query)]
       else matches)
    (enumerate 0 segments) [].

(** The loop over the done videos: the results and [total_matches]. *)
Definition search_loop (p : Platform) (highlight : str -> str -> str)
  (query : str) (videos : list Video)
  : list (Video * list Match) * nat :=
  fold_left
    (fun acc video =>
       match segments_json video with
       | None => acc
       | Some segments =>
           let matches := find_matches p highlight query segments in
           match matches with
           | [] => acc
           | _ :: _ =>
               (fst acc ++ [(video, matches)],
                (snd acc + List.length matches)%nat)
           end
       end)
    videos ([], 0%nat).

(** [search()] on the request argument [q]: the values handed to the
    template. *)
Definition search (p : Platform) (highlight : str -> str -> str)
  (arg_q : str) (s : State) : str * list (Video * list Match) * nat :=
  let query := strip arg_q in
  if truthy query
  then
    let videos := filter_by_status done (rows s) in
    let r := search_loop p highlight query videos in
    (query, fst r, snd r)
  else (query, [], 0%nat).

(** ** The life of a row *)

(** What a worker holds is a row of the table, in the status the worker
    left it in. *)
Definition held_ok (tbl : list Video) (p : pc) : Prop :=
  match p with
  | Selected v => In v tbl /\ status v = pending
  | Claimed v => In v tbl /\ status v = processing
  | AtLoop | Leaving => True
  end.

Definition invariant2 (s : State) : Prop :=
  invariant s /\ Forall (held_ok (rows s)) (workers s).

(** The edges of the status graph, and staying put. *)
Definition legal (a b : Status) : Prop :=
  a = b
  \/ (a = pending /\ b = processing)
  \/ (a = processing /\ (b = done \/ b = failed))
  \/ (a = failed /\ b = pending).

(** A row before and after one step. *)
Definition evolves (r r' : Video) : Prop :=
  same_job r r' /\ legal (status r) (status r')
  /\ (status r = done -> r' = r).

(** A row before and after any number of steps. *)
Definition persists (r r' : Video) : Prop :=
  same_job r r' /\ (status r = done -> r' = r).

(** The table after against the table before: the old rows in place, each
    related by [R], followed by the rows added since. *)
Definition extends (R : Video -> Video -> Prop) (tbl tbl' : list Video)
  : Prop :=
  exists old added, tbl' = old ++ added /\ Forall2 R tbl old.

Inductive steps (h : Host) (root_path : str) : State -> State -> Prop :=
| steps_refl : forall s, steps h root_path s s
| steps_step : forall s s' s'',
    steps h root_path s s' -> step h root_path s' s'' ->
    steps h root_path s s''.

(** ** More sample inputs *)

Module Sample2.

(** [str.lower()] on ASCII letters, the identity elsewhere. *)
Definition ascii_lower (s : str) : str :=
  map (fun c => if ((65 <=? c) && (c <=? 90))%N then (c + 32)%N else c) s.

Definition entry (dir : string) (name : string) (is_file : bool)
  : DirEntry :=
  mkDirEntry (lit name) (lit dir ++ lit "/" ++ lit name) is_file.

(** A POSIX host with one folder, [/videos]. *)
Definition platform : Platform :=
  mkPlatform 47%N None
    (fun path => str_eqb path (lit "/videos"))
    (fun path =>
       Ok [entry "/videos" "b.MKV" true; entry "/videos" "notes.txt" true;
           entry "/videos" "a.mp4" true; entry "/videos" "clips.mp4" false;
           entry "/videos" ".mp4" true])
    ascii_lower.

Definition clock (k : nat) : Z := (200 + Z.of_nat k)%Z.

Definition done_video (i : Z) (name : string) (t : Z)
  (segments : list Segment) : Video :=
  mkVideo i (lit name) (lit "/videos/" ++ lit name) (lit "/videos")
          (Some (25 # 2)%Q) done None
          (Some (segments_to_text segments))
          (Some (slice_to 200 (segments_to_text segments)))
          (Some segments)
          (Some (lit "/app/output/" ++ lit name ++ lit ".txt"))
          (Some (lit "/app/output/" ++ lit name ++ lit ".srt"))
          t (Some (t + 10)%Z).

(** A host on which ffmpeg is found and may not be run. *)
Definition ffmpeg_denied (argv : list str) : result CompletedProcess :=
  Raise (OSError (lit "[Errno 13] Permission denied: 'ffmpeg'")).

Definition host_ffmpeg_denied : Host :=
  Sample.host Sample.ffprobe_ok ffmpeg_denied (Some (lit "sk-test"))
              Sample.hello_world.

(** The sample host with the video files in place. *)
Definition cli_host : Host :=
  let h := Sample.good_host in
  mkHost (which h) (winget_bin_dirs h) (fun _ => true) (path_join h)
         (splitext_base h) (basename h) (exec h) (mkstemp h)
         (locale_decode h) (float_of_str h) (openai_api_key h) (whisper h)
         (makedirs_error h) (open_w_error h).

(** A table with one finished job, and the same table after a scan has
    found a second file. *)
Definition library : State :=
  Sample.start_state [done_video 1 "a.mp4" 100 Sample.hello_world] 2.

Definition library_scanned : State :=
  match enqueue Sample.good_host 200 (lit "/videos") (lit "/videos/b.mp4")
                library with
  | Ok s => s
  | Raise _ => library
  end.

End Sample2.

(** * Properties *)

(** ** Strings *)

Lemma str_eqb_refl (a : str) : str_eqb a a = true.
Proof. unfold str_eqb. destruct (list_eq_dec N.eq_dec a a); congruence. Qed.

Lemma str_eqb_eq (a b : str) : str_eqb a b = true <-> a = b.
Proof.
  unfold str_eqb. destruct (list_eq_dec N.eq_dec a b); split; congruence.
Qed.

Lemma lstrip_spec (s : str) :
  exists l, s = l ++ lstrip s /\ forallb isspace l = true
            /\ match lstrip s with
               | c :: _ => isspace c = false
               | [] => True
               end.
Proof.
  induction s as [|c t IH]; simpl.
  - exists []. auto.
  - destruct (isspace c) eqn:Hc.
    + destruct IH as (l & Hl & Hsp & Hhd).
      exists (c :: l). simpl. rewrite Hc, Hsp. split; [congruence|auto].
    + exists []. simpl. auto.
Qed.

Lemma rstrip_spec (s : str) :
  exists r, s = rstrip s ++ r /\ forallb isspace r = true
            /\ match rev (rstrip s) with
               | c :: _ => isspace c = false
               | [] => True
               end.
Proof.
  unfold rstrip. destruct (lstrip_spec (rev s)) as (l & Hl & Hsp & Hhd).
  exists (rev l). rewrite rev_involutive. repeat split; auto.
  - rewrite <- rev_app_distr, <- Hl, rev_involutive. reflexivity.
  - rewrite forallb_forall in *. intros x Hx. apply Hsp.
    now apply in_rev.
Qed.

(** [strip] removes a run of white space at each end and nothing else, and
    what is left neither starts nor ends with white space. *)
Lemma strip_spec (s : str) :
  exists l r,
    s = l ++ strip s ++ r
    /\ forallb isspace l = true /\ forallb isspace r = true
    /\ match strip s with c :: _ => isspace c = false | [] => True end
    /\ match rev (strip s) with c :: _ => isspace c = false | [] => True end.
Proof.
  unfold strip.
  destruct (lstrip_spec s) as (l & Hl & Hlsp & Hhd).
  destruct (rstrip_spec (lstrip s)) as (r & Hr & Hrsp & Hlast).
  exists l, r. repeat split; auto.
  - rewrite <- Hr. exact Hl.
  - destruct (rstrip (lstrip s)) as [|c t] eqn:E; [exact I|].
    rewrite Hr in Hhd. simpl in Hhd. exact Hhd.
Qed.

Lemma join_lines (sep : str) (parts : list str) :
  parts <> [] ->
  List.concat (map (fun p => p ++ sep) parts) = join sep parts ++ sep.
Proof.
  induction parts as [|p rest IH]; [congruence|].
  intros _. destruct rest as [|q rest'].
  - simpl. now rewrite app_nil_r.
  - change (join sep (p :: q :: rest')) with (p ++ sep ++ join sep (q :: rest')).
    change (List.concat (map (fun p0 => p0 ++ sep) (p :: q :: rest')))
      with ((p ++ sep) ++ List.concat (map (fun p0 => p0 ++ sep) (q :: rest'))).
    rewrite IH by discriminate. now rewrite <- !app_assoc.
Qed.

(** ** Files *)

Lemma read_put_file (path : str) (content : list N) (fls : fs) :
  read_file path (put_file path content fls) = Some content.
Proof.
  unfold read_file, put_file. simpl. now rewrite str_eqb_refl.
Qed.

Lemma path_exists_unlink (path : str) (fls : fs) :
  path_exists path (unlink path fls) = false.
Proof.
  unfold path_exists, unlink. induction fls as [|e t IH]; simpl; auto.
  destruct (str_eqb (fst e) path) eqn:E; simpl; auto.
  now rewrite E.
Qed.

(** ** Transcript codec *)

Lemma write_txt_body_lines (segments : list Segment) (f : str) :
  write_txt_body segments f
  = f ++ List.concat (map (fun seg => strip (seg_text seg) ++ [LF]) segments).
Proof.
  unfold write_txt_body. revert f.
  induction segments as [|seg t IH]; intro f; simpl.
  - now rewrite app_nil_r.
  - rewrite IH. unfold file_write. now rewrite <- app_assoc.
Qed.

Lemma write_srt_body_entries (segments : list Segment) (f : str) :
  write_srt_body segments f
  = f ++ List.concat (map (fun p => srt_entry (fst p) (snd p))
                     (enumerate 1 segments)).
Proof.
  unfold write_srt_body. generalize 1%Z as i. revert f.
  induction segments as [|seg t IH]; intros f i; simpl.
  - now rewrite app_nil_r.
  - rewrite IH. unfold file_write. now rewrite <- app_assoc.
Qed.

(** *** Timestamps *)

Lemma int_of_float_floor (x : Q) :
  (0 <= x)%Q -> int_of_float x = Qfloor x.
Proof.
  intros Hx. unfold int_of_float, Qfloor. destruct x as [n d]; simpl.
  apply Z.quot_div_nonneg; [|lia].
  unfold Qle in Hx. simpl in Hx. lia.
Qed.

Lemma Qfloor_range (x : Q) (a b : Z) :
  (inject_Z a <= x)%Q -> (x < inject_Z b)%Q -> (a <= Qfloor x < b)%Z.
Proof.
  intros Ha Hb. split.
  - rewrite <- (Qfloor_Z a). now apply Qfloor_resp_le.
  - pose proof (Qfloor_le x) as Hf.
    apply Z.lt_nge. intros Hge. rewrite Zle_Qle in Hge. lra.
Qed.




Lemma format_0d_min_width (w : nat) (z : Z) :
  (0 <= z)%Z -> (w <= List.length (format_0d w z))%nat.
Proof.
  intros Hz. unfold format_0d.
  destruct (z <? 0)%Z eqn:E; [apply Z.ltb_lt in E; lia|].
  rewrite length_app, repeat_length. lia.
Qed.

Lemma format_0d_width_below (w bound : nat) :
  forallb (fun n => Nat.eqb (List.length (format_0d w (Z.of_nat n))) w)
          (seq 0 bound) = true ->
  forall z, (0 <= z < Z.of_nat bound)%Z -> List.length (format_0d w z) = w.
Proof.
  intros Hall z Hz. rewrite forallb_forall in Hall.
  specialize (Hall (Z.to_nat z)).
  rewrite Z2Nat.id in Hall by lia. apply Nat.eqb_eq, Hall.
  apply in_seq. lia.
Qed.

Lemma format_0d_two_digits (z : Z) :
  (0 <= z < 100)%Z -> List.length (format_0d 2 z) = 2%nat.
Proof. apply (format_0d_width_below 2 100). vm_compute. reflexivity. Qed.



Example format_srt_time_zero :
  format_srt_time 0%Q = lit "00:00:00,000".
Proof. reflexivity. Qed.

Example format_srt_time_3661_5 :
  format_srt_time (7323 # 2)%Q = lit "01:01:01,500".
Proof. reflexivity. Qed.

(** [7199.999], as the decimal and as the binary64 nearest to it. *)
Example format_srt_time_7199_999 :
  format_srt_time (7199999 # 1000)%Q = lit "01:59:59,999"
  /\ format_srt_time (1979120655118893 # 274877906944)%Q
     = lit "01:59:59,999".
Proof. split; reflexivity. Qed.

(** C4: [format_srt_time] rounds the fractional second to milliseconds and
    prints the rounded value without carrying into the seconds: a fraction
    of at least 0.9995 gives the millisecond field [1000], four digits, so
    the timestamp is not of the form HH:MM:SS,mmm.  Shown at 2047/2048
    (0.99951171875, a binary64 on which every float operation of the source
    is exact), at 7199.9996, and in the entry [write_srt] emits. *)
Theorem format_srt_time_millis_not_carried :
  format_srt_time (2047 # 2048)%Q = lit "00:00:00,1000"
  /\ format_srt_time (71999996 # 10000)%Q = lit "01:59:59,1000"
  /\ write_srt_body [mkSegment 0%Q (2047 # 2048)%Q (lit " Hi ")] []
     = lit "1" ++ [LF] ++ lit "00:00:00,000 --> 00:00:00,1000" ++ [LF]
         ++ lit "Hi" ++ [LF] ++ [LF].
Proof. repeat split; reflexivity. Qed.

(** C5 as stated fails: [segments_to_text] does not end the last line. *)
Lemma segments_to_text_no_final_newline :
  segments_to_text Sample.hello_world
  <> lit "Hello" ++ [LF] ++ lit "world" ++ [LF].
Proof. vm_compute. discriminate. Qed.

(** C5 (amended): the file [write_txt] leaves holds, in the original order,
    each segment's text stripped of white space at both ends and followed by
    one newline, with nothing between the entries; [segments_to_text] is the
    same stripped texts joined by single newlines, with no newline after the
    last one, so for a non-empty sequence the file is that text plus a final
    newline.  On the two sample segments the file is "Hello\nworld\n" and the
    joined text is "Hello\nworld". *)
Theorem plain_text_rendering (h : Host) (segments : list Segment)
  (output_path : str) (fls : fs) :
  fst (write_txt h segments output_path fls) = Ok tt ->
  let line seg := strip (seg_text seg) ++ [LF] in
  read_file output_path (snd (write_txt h segments output_path fls))
  = Some (List.concat (map line segments))
  /\ segments_to_text segments
     = join [LF] (map (fun seg => strip (seg_text seg)) segments)
  /\ (segments <> [] ->
      List.concat (map line segments) = segments_to_text segments ++ [LF])
  /\ (forall seg, In seg segments ->
      exists l r,
        seg_text seg = l ++ strip (seg_text seg) ++ r
        /\ forallb isspace l = true /\ forallb isspace r = true
        /\ match strip (seg_text seg) with
           | c :: _ => isspace c = false | [] => True end
        /\ match rev (strip (seg_text seg)) with
           | c :: _ => isspace c = false | [] => True end)
  /\ List.concat (map line Sample.hello_world)
     = lit "Hello" ++ [LF] ++ lit "world" ++ [LF]
  /\ segments_to_text Sample.hello_world = lit "Hello" ++ [LF] ++ lit "world".
Proof.
  intros Hok line. repeat split.
  - unfold write_txt, with_open_w in *.
    destruct (open_w_error h output_path); [discriminate|].
    simpl. rewrite read_put_file, write_txt_body_lines. reflexivity.
  - intros Hne. unfold segments_to_text.
    rewrite <- (join_lines [LF]).
    + now rewrite map_map.
    + destruct segments; [congruence|discriminate].
  - intros seg _. apply strip_spec.
Qed.

Lemma plain_text_rendering_witness :
  read_file (lit "out.txt")
    (snd (write_txt Sample.good_host Sample.hello_world (lit "out.txt") []))
  = Some (lit "Hello" ++ [LF] ++ lit "world" ++ [LF]).
Proof.
  exact (proj1 (plain_text_rendering Sample.good_host Sample.hello_world
                  (lit "out.txt") [] eq_refl)).
Defined.

(** ** Audio extractor *)

(** The two failure modes of [extract_audio] and their cleanup: a missing
    tool gives the "FFmpeg not found" [RuntimeError]; a non-zero exit whose
    diagnostic output decodes gives a [RuntimeError] that carries it; after
    a launch failure of the first kind and after any non-zero exit the
    temporary file is gone. *)
Lemma extract_audio_failure_modes (h : Host) (video_path : str) (fls : fs) :
  let audio_path := mkstemp h (lit ".mp3") fls in
  let argv := ffmpeg_argv h video_path audio_path in
  (forall m, exec h argv = Raise (FileNotFoundError m) ->
     extract_audio h video_path fls
     = (Raise (RuntimeError ffmpeg_not_found),
        unlink audio_path (put_file audio_path [] fls)))
  /\ (forall cp, exec h argv = Ok cp -> returncode cp <> 0%Z ->
        path_exists audio_path (snd (extract_audio h video_path fls)) = false
        /\ forall d, utf8_decode (stderr cp) = Some d ->
             fst (extract_audio h video_path fls)
             = Raise (RuntimeError (lit "Error extracting audio: " ++ d))).
Proof.
  intros audio_path argv. split.
  - intros m Hexec.
    unfold extract_audio, try_except, bind, subprocess_run, bind, communicate.
    fold audio_path. fold argv. rewrite Hexec. reflexivity.
  - intros cp Hexec Hrc.
    unfold extract_audio, try_except, bind, subprocess_run, bind, communicate,
      check_returncode.
    fold audio_path. fold argv. rewrite Hexec.
    apply Z.eqb_neq in Hrc. rewrite Hrc. unfold raise, bytes_decode.
    destruct (utf8_decode (stderr cp)) as [d|]; simpl;
      (split; [apply path_exists_unlink|]); intros d' Hd; congruence.
Qed.

(** C7: when ffmpeg exits with a non-zero status and its diagnostic output
    is not valid UTF-8 (here the single octet 0xFF), [extract_audio] deletes
    the temporary file and then raises the [UnicodeDecodeError] of
    [exc.stderr.decode()], not the [RuntimeError] that carries the
    diagnostic output. *)
Theorem extract_audio_undecodable_diagnostics :
  let h := Sample.host Sample.ffprobe_ok (Sample.ffmpeg_fails [255%N])
                       (Some (lit "sk-test")) Sample.hello_world in
  exists msg,
    extract_audio h (lit "/videos/a.mp4") []
    = (Raise (UnicodeDecodeError msg), []).
Proof. eexists. vm_compute. reflexivity. Qed.

(** ** Duration probe *)

Lemma try_except_all_ok {S A : Type} (m : St S A) (a : A) (s : S) :
  exists r s', try_except m (fun _ => Some (ret a)) s = (Ok r, s').
Proof.
  unfold try_except, ret. destruct (m s) as [[r|e] s']; eauto.
Qed.

(** C10: [get_video_duration] never raises: it returns a float or [None]
    whatever the host does.  A probe that cannot be launched (the tool
    missing or any other launch error), a non-zero exit status and an output
    that [float] rejects each give [None]; hence enqueueing a file never
    fails on the probe, and neither does the worker's probe of a job whose
    duration is missing. *)
Theorem get_video_duration_total (h : Host) (path : str) (fls : fs) :
  (exists d fls', get_video_duration h path fls = (Ok d, fls'))
  /\ (forall e, exec h (ffprobe_argv h path) = Raise e ->
        get_video_duration h path fls = (Ok None, fls))
  /\ (forall cp, exec h (ffprobe_argv h path) = Ok cp ->
        returncode cp <> 0%Z ->
        fst (get_video_duration h path fls) = Ok None)
  /\ (forall cp out, exec h (ffprobe_argv h path) = Ok cp ->
        locale_decode h (stdout cp) = Ok out ->
        float_of_str h (strip out) = None ->
        fst (get_video_duration h path fls) = Ok None)
  /\ (forall now folder_ s, exists s', enqueue h now folder_ path s = Ok s')
  /\ (forall fr, fst (probe_if_missing h fr) = Ok tt).
Proof.
  repeat split.
  - apply try_except_all_ok.
  - intros e He.
    unfold get_video_duration, try_except, bind, subprocess_run_text, bind,
      communicate.
    rewrite He. reflexivity.
  - intros cp Hcp Hrc. apply Z.eqb_neq in Hrc.
    unfold get_video_duration, try_except, bind, subprocess_run_text, bind,
      communicate, lift_result, check_returncode.
    rewrite Hcp, Hrc.
    destruct (locale_decode h (stdout cp)); [|reflexivity].
    destruct (locale_decode h (stderr cp)); reflexivity.
  - intros cp out Hcp Hout Hfl.
    unfold get_video_duration, try_except, bind, subprocess_run_text, bind,
      communicate, lift_result, check_returncode.
    rewrite Hcp, Hout.
    destruct (locale_decode h (stderr cp)); [|reflexivity].
    destruct (returncode cp =? 0)%Z; simpl; [|reflexivity].
    unfold ret. simpl. rewrite Hfl. reflexivity.
  - intros now folder_ s. unfold enqueue.
    destruct (query_by_filepath path (rows s)); [eauto|].
    destruct (try_except_all_ok
                (out <- subprocess_run_text h (ffprobe_argv h path) ;;
                 match float_of_str h (strip (fst out)) with
                 | Some d => ret (Some d)
                 | None =>
                     raise (ValueError
                              (lit "could not convert string to float"))
                 end)%py None (files s)) as (d & fls' & Hd).
    unfold get_video_duration. rewrite Hd. eauto.
  - intros fr. unfold probe_if_missing, bind, the_video, in_files. simpl.
    destruct (duration_seconds (fr_video fr)); [reflexivity|].
    destruct (try_except_all_ok
                (out <- subprocess_run_text h
                          (ffprobe_argv h (filepath (fr_video fr))) ;;
                 match float_of_str h (strip (fst out)) with
                 | Some d => ret (Some d)
                 | None =>
                     raise (ValueError
                              (lit "could not convert string to float"))
                 end)%py None (fr_files fr)) as (d & fls' & Hd).
    unfold get_video_duration. rewrite Hd. reflexivity.
Qed.

(** The probe on a host without ffprobe. *)
Lemma get_video_duration_witness :
  get_video_duration Sample.host_without_ffprobe (lit "/videos/a.mp4") []
  = (Ok None, []).
Proof.
  apply (proj1 (proj2 (get_video_duration_total _ _ _))
           (FileNotFoundError (lit "[Errno 2] No such file or directory"))).
  reflexivity.
Defined.

(** ** The job store *)

Lemma db_get_id (video_id : Z) (table : list Video) (v : Video) :
  db_get video_id table = Some v -> id v = video_id /\ In v table.
Proof.
  unfold db_get. intros H. apply find_some in H. destruct H as [Hin Hid].
  apply Z.eqb_eq in Hid. auto.
Qed.

Lemma db_get_commit (video_id : Z) (table : list Video) (v v' : Video) :
  db_get video_id table = Some v -> id v' = video_id ->
  db_get video_id (db_commit v' table) = Some v'.
Proof.
  unfold db_get, db_commit. intros Hget Hid. subst video_id.
  induction table as [|r t IH]; simpl in *; [discriminate|].
  destruct (id r =? id v')%Z eqn:Er; simpl.
  - now rewrite Z.eqb_refl.
  - rewrite Er. auto.
Qed.

Lemma db_commit_ids (v : Video) (table : list Video) :
  map id (db_commit v table) = map id table.
Proof.
  unfold db_commit. induction table as [|r t IH]; simpl; [reflexivity|].
  rewrite IH. destruct (id r =? id v)%Z eqn:E; [|reflexivity].
  apply Z.eqb_eq in E. now rewrite E.
Qed.

Lemma db_commit_In (v : Video) (table : list Video) (r : Video) :
  In r (db_commit v table) ->
  r = v \/ (In r table /\ id r <> id v).
Proof.
  unfold db_commit. rewrite in_map_iff. intros (x & Hx & Hin).
  destruct (id x =? id v)%Z eqn:E.
  - left. congruence.
  - right. subst r. apply Z.eqb_neq in E. auto.
Qed.

Lemma db_commit_commit (v1 v2 : Video) (table : list Video) :
  id v1 = id v2 ->
  db_commit v2 (db_commit v1 table) = db_commit v2 table.
Proof.
  intros Hid. unfold db_commit. rewrite map_map. apply map_ext.
  intros r. rewrite Hid. destruct (id r =? id v2)%Z eqn:E; [|now rewrite E].
  now rewrite Hid, Z.eqb_refl.
Qed.

Lemma db_commit_length (v : Video) (table : list Video) :
  List.length (db_commit v table) = List.length table.
Proof. unfold db_commit. apply length_map. Qed.

Lemma status_eqb_eq (a b : Status) : status_eqb a b = true <-> a = b.
Proof. destruct a, b; simpl; split; congruence. Qed.

(** ** Scheduler: the single-flight guard *)

Lemma start_processing_rows (s : State) :
  rows (start_processing s) = rows s.
Proof. unfold start_processing, guard. destruct (_running s); reflexivity. Qed.

(** ** Retry *)

(** C6: [retry] changes the job's record exactly when its status is
    [failed]: the status becomes [pending], [error_message] and
    [processed_at] are cleared and every other attribute, [duration_seconds]
    and [created_at] among them, is kept, and no row of another id is
    touched; for a job in any other status the whole state is unchanged. *)
Theorem retry_semantics (video_id : Z) (s : State) (video : Video) :
  db_get video_id (rows s) = Some video ->
  (status video = failed ->
     db_get video_id (rows (retry video_id s))
     = Some (mkVideo (id video) (filename video) (filepath video)
                     (folder video) (duration_seconds video) pending None
                     (transcript_text video) (transcript_preview video)
                     (segments_json video) (txt_path video) (srt_path video)
                     (created_at video) None)
     /\ List.length (rows (retry video_id s)) = List.length (rows s)
     /\ forall r, In r (rows (retry video_id s)) -> id r <> video_id ->
                  In r (rows s))
  /\ (status video <> failed -> retry video_id s = s)
  /\ (db_get video_id (rows (retry video_id s)) <> Some video
      <-> status video = failed).
Proof.
  intros Hget.
  assert (Hfailed : status video = failed ->
            rows (retry video_id s)
            = db_commit (set_processed_at None
                           (set_error_message None (set_status pending video)))
                        (rows s)).
  { intros Hst. unfold retry, retry_commit. rewrite Hget, Hst. simpl.
    rewrite start_processing_rows. reflexivity. }
  assert (Hother : status video <> failed -> retry video_id s = s).
  { intros Hst. unfold retry. rewrite Hget.
    destruct (status_eqb (status video) failed) eqn:E; [|reflexivity].
    apply status_eqb_eq in E. contradiction. }
  destruct (db_get_id _ _ _ Hget) as [Hid _].
  split; [|split; [exact Hother|]].
  - intros Hst. rewrite (Hfailed Hst). repeat split.
    + erewrite db_get_commit; [reflexivity|exact Hget|exact Hid].
    + apply db_commit_length.
    + intros r Hin Hne. apply db_commit_In in Hin.
      destruct Hin as [->|[Hin _]]; [|exact Hin].
      simpl in Hne. congruence.
  - split.
    + intros Hchanged. destruct (status video) eqn:Est; try reflexivity;
        exfalso; apply Hchanged; rewrite Hother, Hget; congruence.
    + intros Hst Heq. rewrite (Hfailed Hst) in Heq.
      erewrite db_get_commit in Heq; [|exact Hget|exact Hid].
      injection Heq as Heq. rewrite <- Heq in Hst. simpl in Hst. discriminate.
Qed.

Lemma retry_semantics_witness :
  let v := Sample.new_video 1 "a.mp4" 100 in
  let failed_row :=
    set_processed_at (Some 120%Z)
      (set_error_message (Some ffmpeg_not_found) (set_status failed v)) in
  db_get 1 (rows (retry 1 (Sample.start_state [failed_row] 2))) = Some v.
Proof.
  intros v failed_row.
  exact (proj1 (proj1 (retry_semantics 1 (Sample.start_state [failed_row] 2)
                         failed_row eq_refl) eq_refl)).
Defined.

(** ** One job *)

(** The [try] block either raises, having assigned at most the duration, or
    ends with every output attribute assigned and committed. *)
Lemma job_try_spec (h : Host) (root_path : str) (now : Z) (fr : Frame) :
  exists vd,
    (vd = fr_video fr \/ exists d, vd = set_duration_seconds d (fr_video fr))
    /\ match job_try h root_path now fr with
       | (Raise e, fr1) =>
           fr_video fr1 = vd
           /\ (fr_rows fr1 = fr_rows fr
               \/ fr_rows fr1 = db_commit vd (fr_rows fr))
       | (Ok _, fr1) =>
           exists text segs tp sp,
             fr_video fr1
             = set_processed_at (Some now)
                 (set_status done
                    (set_srt_path (Some sp)
                       (set_txt_path (Some tp)
                          (set_segments_json (Some segs)
                             (set_transcript_preview
                                (Some (slice_to 200 text))
                                (set_transcript_text (Some text) vd))))))
             /\ fr_rows fr1 = db_commit (fr_video fr1) (fr_rows fr)
       end.
Proof.
  destruct fr as [v tbl fls ap].
  unfold job_try, probe_if_missing, bind, the_video, in_files, assign,
    assign_audio_path, db_session_commit, the_files, ret. simpl.
  destruct (duration_seconds v) eqn:Hd.
  - exists v. split; [auto|].
    repeat run_step; auto.
    eexists _, _, _, _. split; reflexivity.
  - run_step.
    + exists (set_duration_seconds a v). split; [eauto|].
      repeat run_step; auto.
      eexists _, _, _, _. split; [reflexivity|].
      simpl. rewrite db_commit_commit; reflexivity.
    + exists v. auto.
Qed.

Lemma job_finally_spec (fr : Frame) :
  exists fls,
    job_finally fr
    = (Ok tt, mkFrame (fr_video fr) (fr_rows fr) fls (fr_audio_path fr)).
Proof.
  unfold job_finally. destruct fr as [v tbl fls ap]; simpl.
  destruct ap as [p|]; [|eauto].
  destruct (truthy p && path_exists p fls); eauto.
Qed.

(** Lines 39-89 never raise; they leave one row changed, the job's: [done]
    with every output when the [try] block came to its end, [failed] with
    the exception's text and the outputs as they were when it raised. *)
Lemma run_job_spec (h : Host) (root_path : str) (now : Z) (v : Video)
  (tbl : list Video) (fls : fs) :
  exists v' fls',
    run_job h root_path now v tbl fls
    = (Ok tt, mkFrame v' (db_commit v' tbl) fls'
                      (fr_audio_path (snd (run_job h root_path now v tbl fls))))
    /\ same_job v v'
    /\ processed_at v' = Some now
    /\ match fst (job_try h root_path now (mkFrame v tbl fls None)) with
       | Ok _ =>
           status v' = done /\ outputs_all v'
           /\ transcript_preview v'
              = option_map (slice_to 200) (transcript_text v')
           /\ error_message v' = error_message v
       | Raise e =>
           status v' = failed /\ error_message v' = Some (str_of_exn e)
           /\ transcript_text v' = transcript_text v
           /\ transcript_preview v' = transcript_preview v
           /\ segments_json v' = segments_json v
           /\ txt_path v' = txt_path v /\ srt_path v' = srt_path v
       end.
Proof.
  unfold run_job, try_except_finally, try_except.
  destruct (job_try_spec h root_path now (mkFrame v tbl fls None))
    as (vd & Hvd & Hspec).
  destruct (job_try h root_path now (mkFrame v tbl fls None))
    as [[[]|e] fr1]; simpl in *.
  - destruct Hspec as (text & segs & tp & sp & Hv & Hrows).
    destruct (job_finally_spec fr1) as (fls' & Hfin). rewrite Hfin. simpl.
    exists (fr_video fr1), fls'. rewrite Hrows.
    split; [reflexivity|]. rewrite Hv.
    destruct Hvd as [->|(d & ->)]; simpl;
      (split; [repeat split|]); repeat split; discriminate.
  - destruct Hspec as (Hv & Hrows).
    unfold job_except, bind, assign, db_session_commit. simpl.
    match goal with
    | |- context [job_finally ?f] =>
        destruct (job_finally_spec f) as (fls' & Hfin); rewrite Hfin
    end. simpl.
    eexists _, fls'. split.
    + f_equal. f_equal.
      destruct Hrows as [->| ->]; [reflexivity|].
      rewrite Hv. apply db_commit_commit. reflexivity.
    + rewrite Hv. destruct Hvd as [->|(d & ->)]; simpl; repeat split.
Qed.

(** ** The query for the oldest pending job *)

Lemma hd_insert_by_created_at (v : Video) (l : list Video) :
  hd_error (insert_by_created_at v l)
  = Some match hd_error l with
         | None => v
         | Some u => if (created_at v <=? created_at u)%Z then v else u
         end.
Proof.
  destruct l as [|u t]; simpl; [reflexivity|].
  destruct (created_at v <=? created_at u)%Z; reflexivity.
Qed.

Lemma first_order_by_none (l : list Video) :
  first (order_by_created_at_asc l) = None -> l = [].
Proof.
  destruct l as [|v t]; [reflexivity|]. unfold first. simpl.
  rewrite hd_insert_by_created_at. discriminate.
Qed.

(** The first row of the ordered result is the earliest row of least
    [created_at]: every row before it in scan order is strictly younger. *)
Lemma first_order_by_spec (l : list Video) (m : Video) :
  first (order_by_created_at_asc l) = Some m ->
  exists l1 l2,
    l = l1 ++ m :: l2
    /\ (forall u, In u l1 -> (created_at m < created_at u)%Z)
    /\ (forall u, In u l2 -> (created_at m <= created_at u)%Z).
Proof.
  revert m. induction l as [|v t IH]; intros m; [discriminate|].
  unfold first in *. simpl. rewrite hd_insert_by_created_at.
  destruct (hd_error (order_by_created_at_asc t)) as [u|] eqn:Hu.
  - destruct (IH u eq_refl) as (l1 & l2 & Ht & Hl1 & Hl2).
    destruct (created_at v <=? created_at u)%Z eqn:Hle;
      intros Hm; injection Hm as <-.
    + apply Z.leb_le in Hle. exists [], t. repeat split; [easy|].
      intros x Hx. rewrite Ht in Hx. apply in_app_or in Hx.
      destruct Hx as [Hx|[<-|Hx]]; [|assumption|].
      * specialize (Hl1 x Hx). lia.
      * specialize (Hl2 x Hx). lia.
    + apply Z.leb_gt in Hle. exists (v :: l1), l2. rewrite Ht.
      repeat split; [|assumption].
      intros x [<-|Hx]; auto.
  - apply first_order_by_none in Hu. subst t.
    intros Hm; injection Hm as <-. exists [], []. repeat split; easy.
Qed.

Lemma StronglySorted_filter {A : Type} (R : A -> A -> Prop)
  (f : A -> bool) (l : list A) :
  StronglySorted R l -> StronglySorted R (filter f l).
Proof.
  induction 1 as [|a l Hs IH Hall]; simpl; [constructor|].
  destruct (f a); [|assumption].
  constructor; [assumption|].
  rewrite Forall_forall in *. intros x Hx. apply filter_In in Hx.
  apply Hall, Hx.
Qed.

Lemma StronglySorted_map_id (l : list Video) :
  StronglySorted Z.lt (map id l)
  -> StronglySorted (fun a b => (id a < id b)%Z) l.
Proof.
  induction l as [|a t IH]; simpl; intros H; [constructor|].
  apply StronglySorted_inv in H. destruct H as [Ht Hall].
  constructor; [auto|].
  rewrite Forall_forall in *. intros x Hx. apply Hall.
  now apply in_map.
Qed.

Lemma StronglySorted_after {A : Type} (R : A -> A -> Prop)
  (l1 l2 : list A) (m : A) :
  StronglySorted R (l1 ++ m :: l2) -> forall u, In u l2 -> R m u.
Proof.
  induction l1 as [|a t IH]; simpl; intros H u Hu.
  - apply StronglySorted_inv in H. destruct H as [_ Hall].
    rewrite Forall_forall in Hall. auto.
  - apply StronglySorted_inv in H. destruct H as [Ht _]. eauto.
Qed.

Lemma oldest_pending_spec (tbl : list Video) (next : Z) (v : Video) :
  ids_ok tbl next ->
  first (order_by_created_at_asc (filter_by_status pending tbl)) = Some v ->
  In v tbl /\ status v = pending
  /\ (exists l1 l2,
        filter_by_status pending tbl = l1 ++ v :: l2
        /\ (forall u, In u l1 -> (created_at v < created_at u)%Z)
        /\ (forall u, In u l2 -> (created_at v <= created_at u)%Z))
  /\ (forall u, In u tbl -> status u = pending ->
        (created_at v <= created_at u)%Z
        /\ (created_at u = created_at v -> (id v <= id u)%Z)).
Proof.
  intros [Hsorted _] Hfirst.
  destruct (first_order_by_spec _ _ Hfirst) as (l1 & l2 & Hl & Hl1 & Hl2).
  assert (Hin : In v (filter_by_status pending tbl)).
  { rewrite Hl. apply in_or_app. right. now left. }
  unfold filter_by_status in Hin. apply filter_In in Hin.
  destruct Hin as [Hin Hst]. apply status_eqb_eq in Hst.
  repeat split; auto.
  - exists l1, l2. auto.
  - assert (Hu : In u (filter_by_status pending tbl)).
    { unfold filter_by_status. apply filter_In. split; [assumption|].
      now apply status_eqb_eq. }
    rewrite Hl in Hu. apply in_app_or in Hu.
    destruct Hu as [Hu|[<-|Hu]]; [specialize (Hl1 u Hu)| |specialize (Hl2 u Hu)];
      lia.
  - intros Htie.
    assert (Hu : In u (filter_by_status pending tbl)).
    { unfold filter_by_status. apply filter_In. split; [assumption|].
      now apply status_eqb_eq. }
    rewrite Hl in Hu. apply in_app_or in Hu.
    destruct Hu as [Hu|[<-|Hu]].
    + specialize (Hl1 u Hu). lia.
    + lia.
    + apply StronglySorted_map_id in Hsorted.
      apply (StronglySorted_filter _ (fun r => status_eqb (status r) pending))
        in Hsorted.
      fold (filter_by_status pending tbl) in Hsorted. rewrite Hl in Hsorted.
      pose proof (StronglySorted_after _ _ _ _ Hsorted u Hu). simpl in *. lia.
Qed.

(** ** The invariant of the process *)

Lemma ids_ok_commit (v : Video) (tbl : list Video) (next : Z) :
  ids_ok tbl next -> ids_ok (db_commit v tbl) next.
Proof. unfold ids_ok. now rewrite db_commit_ids. Qed.

Lemma StronglySorted_snoc (l : list Z) (x : Z) :
  StronglySorted Z.lt l -> Forall (fun i => (i < x)%Z) l ->
  StronglySorted Z.lt (l ++ [x]).
Proof.
  induction 1 as [|a l Hs IH Hall]; simpl; intros Hlt.
  - repeat constructor.
  - inversion Hlt; subst. constructor; [auto|].
    apply Forall_app. split; [assumption|]. repeat constructor. assumption.
Qed.

Lemma ids_ok_add (v : Video) (tbl : list Video) :
  ids_ok tbl (id v) -> ids_ok (tbl ++ [v]) (id v + 1).
Proof.
  unfold ids_ok. intros [Hs Hb]. rewrite map_app. simpl. split.
  - now apply StronglySorted_snoc.
  - apply Forall_app. split.
    + eapply Forall_impl; [|exact Hb]. simpl. intros; lia.
    + repeat constructor. lia.
Qed.

Lemma Forall_db_commit (P : Video -> Prop) (v : Video) (tbl : list Video) :
  P v -> Forall P tbl -> Forall P (db_commit v tbl).
Proof.
  intros Hv Htbl. rewrite Forall_forall in *. intros r Hr.
  apply db_commit_In in Hr. destruct Hr as [->|[Hr _]]; auto.
Qed.

Lemma sole_worker (s : State) (before later : list pc) (p : pc) :
  invariant s -> workers s = before ++ p :: later ->
  before = [] /\ later = [] /\ starting s = 0%nat /\ _running s = true.
Proof.
  intros Hinv Hw. pose proof (inv_threads s Hinv) as Hn.
  rewrite Hw, length_app in Hn. simpl in Hn.
  destruct (_running s); [|lia].
  destruct before; simpl in Hn; [|lia].
  destruct later; simpl in Hn; [|lia].
  repeat split. lia.
Qed.

Lemma initial_invariant (s : State) : initial s -> invariant s.
Proof.
  intros (Hrun & Hst & Hw & Hids & Hrows & Hproc).
  constructor; auto.
  - rewrite Hw, Hst, Hrun. simpl. lia.
  - rewrite Hw. constructor.
  - intros r Hin Hp. exfalso.
    assert (Hf : In r (filter_by_status processing (rows s))).
    { unfold filter_by_status. apply filter_In. split; [assumption|].
      now apply status_eqb_eq. }
    rewrite Hproc in Hf. contradiction.
Qed.

Section Process.

Variable h : Host.
Variable root_path : str.

Lemma enqueue_invariant (now : Z) (folder_ path : str) (s s' : State) :
  invariant s -> enqueue h now folder_ path s = Ok s' -> invariant s'.
Proof.
  intros Hinv. unfold enqueue.
  destruct (query_by_filepath path (rows s)).
  { intros H; injection H as <-. assumption. }
  destruct (get_video_duration h path (files s)) as [[d|e] fls'];
    [|discriminate].
  intros H; injection H as <-. destruct Hinv as [Hids Hrows Hthr Hpcs Hproc].
  constructor; simpl; auto.
  - apply (ids_ok_add (mkVideo (next_id s) _ _ _ _ _ _ _ _ _ _ _ _ _)).
    exact Hids.
  - apply Forall_app. split; [assumption|]. repeat constructor.
  - intros r Hin Hp. apply in_app_or in Hin.
    destruct Hin as [Hin|[<-|[]]]; [auto|discriminate].
Qed.

Lemma retry_commit_invariant (video_id : Z) (s : State) :
  invariant s -> invariant (retry_commit video_id s).
Proof.
  intros Hinv. unfold retry_commit.
  destruct (db_get video_id (rows s)) as [video|] eqn:Hget; [|assumption].
  destruct (status_eqb (status video) failed) eqn:Hst; [|assumption].
  apply status_eqb_eq in Hst. apply db_get_id in Hget.
  destruct Hget as [_ Hin].
  destruct Hinv as [Hids Hrows Hthr Hpcs Hproc].
  constructor; simpl; auto.
  - now apply ids_ok_commit.
  - apply Forall_db_commit; [|assumption].
    rewrite Forall_forall in Hrows. specialize (Hrows _ Hin).
    unfold row_ok in *. rewrite Hst in Hrows. simpl. apply Hrows.
  - intros r Hr Hp. apply db_commit_In in Hr.
    destruct Hr as [->|[Hr _]]; [discriminate|auto].
Qed.

Lemma worker_step_invariant (now : Z) (s s' : State)
  (before later : list pc) (p : pc) (p' : option pc) :
  invariant s -> workers s = before ++ p :: later ->
  worker_step h root_path now p s = (p', s') ->
  invariant (set_workers (before ++ after p' ++ later) s').
Proof.
  intros Hinv Hw Hstep.
  destruct (sole_worker _ _ _ _ Hinv Hw) as (-> & -> & Hst0 & Hrun).
  simpl in Hw. rewrite app_nil_r. simpl.
  destruct Hinv as [Hids Hrows Hthr Hpcs Hproc].
  rewrite Hw in Hpcs, Hproc.
  assert (Hnone : forall q, claimed_id p q -> False ->
            forall r, In r (rows s) -> status r = processing -> False)
    by tauto.
  assert (Hidle : (forall i, ~ claimed_id p i) ->
            forall r, In r (rows s) -> status r <> processing).
  { intros Hno r Hin Hp. destruct (Hproc r Hin Hp) as (q & [<-|[]] & Hq).
    exact (Hno _ Hq). }
  clear Hnone.
  destruct p as [|v|v|]; simpl in Hstep.
  - (* the query *)
    destruct (first (order_by_created_at_asc
                       (filter_by_status pending (rows s)))) as [v|] eqn:Hq;
      injection Hstep as <- <-; constructor; simpl; auto;
        try (rewrite Hrun, Hst0; simpl; lia);
        try (intros r Hin Hp; exfalso; apply (Hidle (fun _ F => F) r Hin Hp)).
    + constructor; [|constructor].
      destruct (oldest_pending_spec _ _ _ Hids Hq) as (Hin & Hpend & _).
      rewrite Forall_forall in Hrows. specialize (Hrows _ Hin).
      unfold row_ok in Hrows. rewrite Hpend in Hrows. exact Hrows.
    + repeat constructor.
  - (* the claim *)
    injection Hstep as <- <-. inversion Hpcs as [|? ? Hv _]; subst.
    constructor; simpl.
    + now apply ids_ok_commit.
    + apply Forall_db_commit; [exact Hv|assumption].
    + rewrite Hrun, Hst0. simpl. lia.
    + constructor; [exact Hv|constructor].
    + intros r Hin Hp. apply db_commit_In in Hin.
      destruct Hin as [->|[Hin _]].
      * exists (Claimed (set_status processing v)). simpl. auto.
      * exfalso. apply (Hidle (fun _ F => F) r Hin Hp).
  - (* the job *)
    destruct (run_job_spec h root_path now v (rows s) (files s))
      as (v' & fls' & Hrun_job & Hsame & Hat & Hout).
    rewrite Hrun_job in Hstep. injection Hstep as <- <-.
    inversion Hpcs as [|? ? Hv _]; subst. simpl in Hv.
    destruct Hsame as (Hid & _).
    assert (Hv' : row_ok v' /\ status v' <> processing).
    { unfold row_ok.
      destruct (fst (job_try h root_path now
                       (mkFrame v (rows s) (files s) None))).
      - destruct Hout as (-> & Hall & _). split; [|discriminate].
        split; [assumption|]. rewrite Hat. discriminate.
      - destruct Hout as (-> & Herr & Ht & _ & Hs & Htp & Hsp).
        split; [|discriminate]. unfold outputs_none in *.
        rewrite Ht, Hs, Htp, Hsp, Herr, Hat. repeat split; try apply Hv;
          discriminate. }
    destruct Hv' as [Hok Hnp].
    constructor; simpl.
    + now apply ids_ok_commit.
    + now apply Forall_db_commit.
    + rewrite Hrun, Hst0. simpl. lia.
    + repeat constructor.
    + intros r Hin Hp. apply db_commit_In in Hin.
      destruct Hin as [->|[Hin Hne]]; [contradiction|].
      destruct (Hproc r Hin Hp) as (q & [<-|[]] & Hq). simpl in Hq.
      congruence.
  - (* the release *)
    injection Hstep as <- <-. constructor; simpl; auto.
    + lia.
    + intros r Hin Hp. exfalso. apply (Hidle (fun _ F => F) r Hin Hp).
Qed.

Lemma step_invariant (s s' : State) :
  invariant s -> step h root_path s s' -> invariant s'.
Proof.
  intros Hinv Hstep. destruct Hstep.
  - unfold guard. destruct (_running s) eqn:Hrun; [assumption|].
    destruct Hinv as [Hids Hrows Hthr Hpcs Hproc].
    rewrite Hrun in Hthr. constructor; simpl; auto. lia.
  - destruct Hinv as [Hids Hrows Hthr Hpcs Hproc].
    constructor; simpl; auto.
    + rewrite length_app. simpl. lia.
    + apply Forall_app. split; [assumption|]. repeat constructor.
    + intros r Hin Hp. destruct (Hproc r Hin Hp) as (q & Hq & Hc).
      exists q. split; [|assumption]. apply in_or_app. now left.
  - eapply worker_step_invariant; eassumption.
  - eapply enqueue_invariant; eassumption.
  - now apply retry_commit_invariant.
Qed.

Lemma reachable_invariant (s : State) :
  reachable h root_path s -> invariant s.
Proof.
  induction 1 as [s Hinit|s s' _ IH Hstep].
  - now apply initial_invariant.
  - eapply step_invariant; eassumption.
Qed.

End Process.

Lemma filter_none {A : Type} (f : A -> bool) (l : list A) :
  (forall x, In x l -> f x = false) -> filter f l = [].
Proof.
  induction l as [|a t IH]; simpl; intros H; [reflexivity|].
  rewrite (H a) by now left. apply IH. intros x Hx. apply H. now right.
Qed.

(** In a table of distinct ids at most one row passes a test that only the
    rows of one id pass. *)
Lemma at_most_one_of_id (f : Video -> bool) (k : Z) (tbl : list Video) :
  StronglySorted Z.lt (map id tbl) ->
  (forall r, In r tbl -> f r = true -> id r = k) ->
  (List.length (filter f tbl) <= 1)%nat.
Proof.
  induction tbl as [|r t IH]; simpl; intros Hs Hk; [lia|].
  apply StronglySorted_inv in Hs. destruct Hs as [Hs Hall].
  destruct (f r) eqn:Hr.
  - rewrite filter_none; [simpl; lia|].
    intros x Hx. destruct (f x) eqn:Hfx; [|reflexivity]. exfalso.
    rewrite Forall_forall in Hall.
    specialize (Hall (id x) (in_map id _ _ Hx)).
    rewrite (Hk r) in Hall by auto. rewrite (Hk x) in Hall by auto. lia.
  - apply IH; auto.
Qed.

(** C1: a call of [start_processing] while the flag is up returns the state
    as it was: no thread is started, the flag and the table are untouched;
    and in every state the process can reach, a live worker implies the flag
    is up, there is at most one worker thread (started or about to be), and
    at most one row of the table has status [processing]. *)
Theorem single_flight (h : Host) (root_path : str) :
  (forall s, _running s = true -> start_processing s = s)
  /\ (forall s, reachable h root_path s ->
        (workers s <> [] -> start_processing s = s)
        /\ (List.length (workers s) + starting s <= 1)%nat
        /\ (List.length (filter_by_status processing (rows s)) <= 1)%nat).
Proof.
  assert (Hnoop : forall s, _running s = true -> start_processing s = s).
  { intros s Hrun. unfold start_processing, guard. now rewrite Hrun. }
  split; [exact Hnoop|].
  intros s Hreach. apply reachable_invariant in Hreach.
  split; [|split].
  - intros Hw. apply Hnoop.
    destruct (workers s) as [|p later] eqn:E; [congruence|].
    now destruct (sole_worker s [] later p Hreach E) as (_ & _ & _ & Hrun).
  - pose proof (inv_threads s Hreach). destruct (_running s); lia.
  - destruct (workers s) as [|p later] eqn:E.
    + unfold filter_by_status. rewrite filter_none; [simpl; lia|].
      intros r Hin. destruct (status_eqb (status r) processing) eqn:Hp;
        [|reflexivity].
      apply status_eqb_eq in Hp.
      destruct (inv_processing s Hreach r Hin Hp) as (q & Hq & _).
      rewrite E in Hq. contradiction.
    + destruct (sole_worker s [] later p Hreach E) as (_ & -> & _ & _).
      destruct p as [|v|v|];
        try (unfold filter_by_status; rewrite filter_none; [simpl; lia|];
             intros r Hin;
             destruct (status_eqb (status r) processing) eqn:Hp;
             [|reflexivity];
             apply status_eqb_eq in Hp;
             destruct (inv_processing s Hreach r Hin Hp) as (q & Hq & Hc);
             rewrite E in Hq; destruct Hq as [<-|[]]; contradiction).
      apply (at_most_one_of_id _ (id v)).
      * apply (inv_ids s Hreach).
      * intros r Hin Hp. apply status_eqb_eq in Hp.
        destruct (inv_processing s Hreach r Hin Hp) as (q & Hq & Hc).
        rewrite E in Hq. destruct Hq as [<-|[]]. simpl in Hc. congruence.
Qed.

(** A state reached by a scan of two files, two calls of
    [start_processing] and the worker's query and claim. *)
Lemma single_flight_witness :
  let job := set_status processing
               (mkVideo 1 (lit "/videos/a.mp4") (lit "/videos/a.mp4")
                        (lit "/videos") (Some (25 # 2)%Q) pending None None
                        None None None None 100 None) in
  let s := mkState true 0 [Claimed job]
             [job;
              mkVideo 2 (lit "/videos/b.mp4") (lit "/videos/b.mp4")
                      (lit "/videos") (Some (25 # 2)%Q) pending None None
                      None None None None 101 None]
             3 [] in
  start_processing s = s
  /\ (List.length (filter_by_status processing (rows s)) <= 1)%nat.
Proof.
  intros job s.
  assert (Hreach : reachable Sample.good_host (lit "/app") s).
  { pose (h := Sample.good_host). pose (root := lit "/app").
    pose (s0 := Sample.start_state [] 1).
    assert (H0 : reachable h root s0).
    { apply reach_initial. unfold initial, ids_ok. simpl.
      repeat split; constructor. }
    destruct (enqueue h 100 (lit "/videos") (lit "/videos/a.mp4") s0)
      as [s1|] eqn:E1; [|discriminate E1].
    pose proof (reach_step h root _ _ H0 (step_enqueue h root _ _ _ _ _ E1))
      as H1.
    destruct (enqueue h 101 (lit "/videos") (lit "/videos/b.mp4") s1)
      as [s2|] eqn:E2; [|vm_compute in E1; injection E1 as <-; discriminate E2].
    pose proof (reach_step h root _ _ H1 (step_enqueue h root _ _ _ _ _ E2))
      as H2.
    vm_compute in E1. injection E1 as <-.
    vm_compute in E2. injection E2 as <-.
    pose proof (reach_step h root _ _ H2 (step_guard h root _)) as H3.
    pose proof (reach_step h root _ _ H3 (step_guard h root _)) as H4.
    match type of H4 with
    | reachable _ _ ?s4 =>
        pose proof (reach_step h root s4 _ H4
                      (step_thread_start h root s4 (Nat.lt_0_succ 0))) as H5
    end.
    match type of H5 with
    | reachable _ _ ?s5 =>
        pose proof (reach_step h root s5 _ H5
                      (step_worker h root s5 102 [] AtLoop [] _ _
                         eq_refl eq_refl)) as H6
    end.
    match type of H6 with
    | reachable _ _ ?s6 =>
        pose proof (reach_step h root s6 _ H6
                      (step_worker h root s6 103 [] (Selected _) [] _ _
                         eq_refl eq_refl)) as H7
    end.
    exact H7. }
  destruct (single_flight Sample.good_host (lit "/app")) as [_ Hall].
  destruct (Hall s Hreach) as (Hnoop & _ & Hone).
  split; [apply Hnoop; discriminate|exact Hone].
Defined.

(** C2: when the worker runs its query in a reachable state, it selects a
    pending row of least [created_at]; rows of equal [created_at] are taken
    in insertion order, which is the order of their ids.  When no row is
    pending the worker leaves its loop, and its next step lowers the
    [_running] flag and ends the thread, leaving table and files as they
    are. *)
Theorem fifo_claim_order (h : Host) (root_path : str) (s : State) (now : Z) :
  reachable h root_path s ->
  match worker_step h root_path now AtLoop s with
  | (Some (Selected v), s') =>
      s' = s /\ In v (rows s) /\ status v = pending
      /\ (exists l1 l2,
            filter_by_status pending (rows s) = l1 ++ v :: l2
            /\ (forall u, In u l1 -> (created_at v < created_at u)%Z)
            /\ (forall u, In u l2 -> (created_at v <= created_at u)%Z))
      /\ (forall u, In u (rows s) -> status u = pending ->
            (created_at v <= created_at u)%Z
            /\ (created_at u = created_at v -> (id v <= id u)%Z))
  | (Some Leaving, s') =>
      s' = s /\ filter_by_status pending (rows s) = []
      /\ worker_step h root_path now Leaving s
         = (None, mkState false (starting s) (workers s) (rows s)
                          (next_id s) (files s))
  | _ => False
  end.
Proof.
  intros Hreach. apply reachable_invariant in Hreach. simpl.
  destruct (first (order_by_created_at_asc
                     (filter_by_status pending (rows s)))) as [v|] eqn:Hq.
  - split; [reflexivity|].
    exact (oldest_pending_spec _ _ _ (inv_ids s Hreach) Hq).
  - apply first_order_by_none in Hq. auto.
Qed.

(** Two pending rows of equal [created_at]: the lower id is selected. *)
Lemma fifo_claim_order_witness :
  let a := Sample.new_video 1 "a.mp4" 100 in
  let b := Sample.new_video 2 "b.mp4" 100 in
  let s := Sample.start_state [a; b] 3 in
  In a (rows s) /\ status a = pending
  /\ (forall u, In u (rows s) -> status u = pending ->
        (created_at a <= created_at u)%Z
        /\ (created_at u = created_at a -> (id a <= id u)%Z)).
Proof.
  intros a b s.
  assert (Hreach : reachable Sample.good_host (lit "/app") s).
  { apply reach_initial. unfold initial, ids_ok. simpl.
    repeat split; repeat constructor. }
  pose proof (fifo_claim_order Sample.good_host (lit "/app") s 101 Hreach)
    as H.
  simpl in H. destruct H as (_ & Hin & Hst & _ & Hmin).
  exact (conj Hin (conj Hst Hmin)).
Defined.

(** C3: in every reachable state each row carries either none of
    [transcript_text], [segments_json], [txt_path], [srt_path] (and is not
    [done]) or all four (and is [done]); a [failed] row has its
    [error_message] and [processed_at] set.  The worker's step on a claimed
    job changes the table by one commit of that job's row: when the [try]
    block raised [e] the row is [failed] with [error_message = str(e)],
    [processed_at] set and none of the four outputs; when it did not, the
    row is [done] with all four outputs and [processed_at] set. *)
Theorem atomic_outputs (h : Host) (root_path : str) (s : State) :
  reachable h root_path s ->
  Forall row_ok (rows s)
  /\ forall now v, In (Claimed v) (workers s) ->
       exists v' fls',
         worker_step h root_path now (Claimed v) s
         = (Some AtLoop,
            mkState (_running s) (starting s) (workers s)
                    (db_commit v' (rows s)) (next_id s) fls')
         /\ id v' = id v
         /\ processed_at v' = Some now
         /\ match fst (job_try h root_path now
                         (mkFrame v (rows s) (files s) None)) with
            | Raise e =>
                status v' = failed
                /\ error_message v' = Some (str_of_exn e)
                /\ outputs_none v'
            | Ok _ => status v' = done /\ outputs_all v'
            end.
Proof.
  intros Hreach. apply reachable_invariant in Hreach.
  split; [apply (inv_rows s Hreach)|].
  intros now v Hin.
  pose proof (inv_pcs s Hreach) as Hpcs. rewrite Forall_forall in Hpcs.
  specialize (Hpcs _ Hin). simpl in Hpcs.
  destruct (run_job_spec h root_path now v (rows s) (files s))
    as (v' & fls' & Hrun & Hsame & Hat & Hout).
  exists v', fls'. simpl. rewrite Hrun. simpl.
  split; [reflexivity|]. split; [apply Hsame|]. split; [exact Hat|].
  destruct (fst (job_try h root_path now
                   (mkFrame v (rows s) (files s) None))).
  - destruct Hout as (Hst & Hall & _). auto.
  - destruct Hout as (Hst & Herr & Ht & _ & Hs & Htp & Hsp).
    unfold outputs_none in *. rewrite Ht, Hs, Htp, Hsp. auto.
Qed.

(** A job that fails in a reachable state: ffmpeg is missing. *)
Lemma atomic_outputs_witness :
  let job := set_status processing (Sample.new_video 1 "a.mp4" 100) in
  let s := mkState true 0 [Claimed job] [job] 2 [] in
  exists v' fls',
    worker_step Sample.host_without_ffmpeg (lit "/app") 105 (Claimed job) s
    = (Some AtLoop, mkState true 0 [Claimed job] [v'] 2 fls')
    /\ status v' = failed /\ outputs_none v'.
Proof.
  intros job s.
  set (h := Sample.host_without_ffmpeg). set (root := lit "/app").
  assert (Hreach : reachable h root s).
  { pose (s0 := Sample.start_state [Sample.new_video 1 "a.mp4" 100] 2).
    assert (H0 : reachable h root s0).
    { apply reach_initial. unfold initial, ids_ok. simpl.
      repeat split; repeat constructor. }
    pose proof (reach_step h root _ _ H0 (step_guard h root _)) as H1.
    match type of H1 with
    | reachable _ _ ?s1 =>
        pose proof (reach_step h root s1 _ H1
                      (step_thread_start h root s1 (Nat.lt_0_succ 0))) as H2
    end.
    match type of H2 with
    | reachable _ _ ?s2 =>
        pose proof (reach_step h root s2 _ H2
                      (step_worker h root s2 102 [] AtLoop [] _ _
                         eq_refl eq_refl)) as H3
    end.
    match type of H3 with
    | reachable _ _ ?s3 =>
        pose proof (reach_step h root s3 _ H3
                      (step_worker h root s3 103 [] (Selected _) [] _ _
                         eq_refl eq_refl)) as H4
    end.
    exact H4. }
  destruct (atomic_outputs h root s Hreach) as [_ Hjob].
  destruct (Hjob 105%Z job (or_introl eq_refl))
    as (v' & fls' & Hstep & Hid & _ & Hout).
  exists v', fls'. split.
  - rewrite Hstep. f_equal. f_equal. simpl in *. rewrite Hid. reflexivity.
  - match type of Hout with
    | match ?r with Ok _ => _ | Raise _ => _ end =>
        replace r with (@Raise unit (RuntimeError ffmpeg_not_found)) in Hout
          by (vm_compute; reflexivity)
    end.
    tauto.
Defined.

(** ** The worker loop *)

Section Loop.

Variable h : Host.
Variable root_path : str.

Lemma worker_step_claimed (now : Z) (v : Video) (s : State) :
  exists v' fls',
    worker_step h root_path now (Claimed v) s
    = (Some AtLoop,
       mkState (_running s) (starting s) (workers s)
               (db_commit v' (rows s)) (next_id s) fls')
    /\ id v' = id v
    /\ match fst (job_try h root_path now
                    (mkFrame v (rows s) (files s) None)) with
       | Ok _ => status v' = done
       | Raise e =>
           status v' = failed /\ error_message v' = Some (str_of_exn e)
       end.
Proof.
  destruct (run_job_spec h root_path now v (rows s) (files s))
    as (v' & fls' & Hrun & Hsame & _ & Hout).
  exists v', fls'. simpl. rewrite Hrun. simpl.
  split; [reflexivity|]. split; [apply Hsame|].
  destruct (fst (job_try h root_path now
                   (mkFrame v (rows s) (files s) None))); tauto.
Qed.

Lemma get_video_duration_ok (path : str) (fls : fs) :
  exists d fls', get_video_duration h path fls = (Ok d, fls').
Proof. apply try_except_all_ok. Qed.

Lemma job_try_tool_missing (now : Z) (v : Video) (tbl : list Video)
  (fls : fs) :
  ffmpeg_absent h (filepath v) ->
  fst (job_try h root_path now (mkFrame v tbl fls None))
  = Raise (RuntimeError ffmpeg_not_found).
Proof.
  intros Habsent.
  assert (Hx : forall f, fst (extract_audio h (filepath v) f)
                         = Raise (RuntimeError ffmpeg_not_found)).
  { intros f. destruct (Habsent (mkstemp h (lit ".mp3") f)) as (m & Hm).
    destruct (extract_audio_failure_modes h (filepath v) f) as [Hnf _].
    now rewrite (Hnf m Hm). }
  unfold job_try, probe_if_missing, bind, the_video, in_files, assign,
    assign_audio_path, db_session_commit, the_files, ret. simpl.
  destruct (duration_seconds v); simpl.
  - specialize (Hx fls).
    destruct (extract_audio h (filepath v) fls) as [[a|e] f1]; simpl in *;
      congruence.
  - destruct (get_video_duration_ok (filepath v) fls) as (d & f0 & ->).
    simpl. specialize (Hx f0).
    destruct (extract_audio h (filepath v) f0) as [[a|e] f1]; simpl in *;
      congruence.
Qed.

Lemma commit_fewer_pending (v v' : Video) (tbl : list Video) :
  id v' = id v -> status v' <> pending ->
  (pending_count (db_commit v' tbl) <= pending_count tbl)%nat
  /\ (In v tbl -> status v = pending ->
      (pending_count (db_commit v' tbl) < pending_count tbl)%nat).
Proof.
  intros Hid Hst. unfold pending_count, filter_by_status, db_commit.
  assert (Hv' : status_eqb (status v') pending = false).
  { destruct (status v'); simpl; congruence. }
  induction tbl as [|r t [IHle IHlt]]; simpl; [split; [lia|tauto]|].
  destruct (id r =? id v')%Z eqn:Er.
  - rewrite Hv'. split.
    + destruct (status_eqb (status r) pending); simpl; lia.
    + intros [->|Hin] Hp.
      * rewrite Hp. simpl. lia.
      * specialize (IHlt Hin Hp).
        destruct (status_eqb (status r) pending); simpl; lia.
  - split.
    + destruct (status_eqb (status r) pending); simpl; lia.
    + intros [->|Hin] Hp.
      * rewrite Hid, Z.eqb_refl in Er. discriminate.
      * specialize (IHlt Hin Hp).
        destruct (status_eqb (status r) pending); simpl; lia.
Qed.

Lemma run_worker_cons (now : Z) (later : list Z) (p : pc) (s : State) :
  run_worker h root_path (now :: later) p s
  = match worker_step h root_path now p s with
    | (None, s') => Some s'
    | (Some p', s') => run_worker h root_path later p' s'
    end.
Proof. reflexivity. Qed.

Lemma settled_refl (tbl : list Video) : Forall2 settled tbl tbl.
Proof. induction tbl; constructor; unfold settled; auto. Qed.

Lemma settled_commit (v' : Video) (tbl : list Video) :
  status v' = done \/ status v' = failed ->
  Forall2 settled tbl (db_commit v' tbl).
Proof.
  intros Hst. unfold db_commit.
  induction tbl as [|r t IH]; simpl; constructor; [|exact IH].
  unfold settled. destruct (id r =? id v')%Z eqn:E; [|auto].
  apply Z.eqb_eq in E. auto.
Qed.

Lemma settled_trans (a b c : list Video) :
  Forall2 settled a b -> Forall2 settled b c -> Forall2 settled a c.
Proof.
  intros Hab. revert c. induction Hab as [|x y a b Hxy _ IH]; intros c Hbc;
    inversion Hbc as [|? z ? c' Hyz Hrest]; subst; constructor; [|auto].
  destruct Hxy as [Hid1 H1], Hyz as [Hid2 H2]. split; [congruence|].
  destruct H2 as [->|H2]; auto.
Qed.

Lemma settled_none_pending (a b : list Video) :
  Forall2 settled a b ->
  (forall r', In r' b -> status r' <> pending) ->
  Forall2 (fun r r' =>
             settled r r'
             /\ (status r = pending ->
                 status r' = done \/ status r' = failed)) a b.
Proof.
  induction 1 as [|r r' t t' Hs _ IH]; intros Hnp; constructor.
  - split; [exact Hs|]. intros Hp.
    destruct Hs as [_ [->|Hs]]; [|exact Hs].
    exfalso. apply (Hnp r); [now left|exact Hp].
  - apply IH. intros x Hx. apply Hnp. now right.
Qed.

(** Run on its own with clock readings enough for three steps a pending job
    and two more, the worker ends, with the flag down and nothing pending;
    it has replaced rows only by [done] or [failed] rows of the same id. *)
Lemma drain (n : nat) :
  forall (clock : list Z) (s : State),
    (pending_count (rows s) <= n)%nat ->
    (3 * n + 2 <= List.length clock)%nat ->
    exists s',
      run_worker h root_path clock AtLoop s = Some s'
      /\ _running s' = false
      /\ filter_by_status pending (rows s') = []
      /\ Forall2 settled (rows s) (rows s').
Proof.
  induction n as [|n IH]; intros clock s Hcount Hclock;
    destruct (first (order_by_created_at_asc
                       (filter_by_status pending (rows s)))) as [v|] eqn:Hq.
  - apply first_order_by_spec in Hq. destruct Hq as (l1 & l2 & Hl & _).
    unfold pending_count in Hcount. rewrite Hl, length_app in Hcount.
    simpl in Hcount. lia.
  - apply first_order_by_none in Hq as Hnone.
    destruct clock as [|t1 [|t2 later]]; simpl in Hclock; try lia.
    exists (mkState false (starting s) (workers s) (rows s) (next_id s)
                    (files s)).
    simpl. rewrite Hq. simpl. auto using settled_refl.
  - destruct clock as [|t1 [|t2 [|t3 later]]]; simpl in Hclock; try lia.
    apply first_order_by_spec in Hq as Hspec.
    destruct Hspec as (l1 & l2 & Hl & _).
    assert (Hin : In v (filter_by_status pending (rows s))).
    { rewrite Hl. apply in_or_app. right. now left. }
    unfold filter_by_status in Hin. apply filter_In in Hin.
    destruct Hin as [Hin Hp]. apply status_eqb_eq in Hp.
    set (s1 := mkState (_running s) (starting s) (workers s)
                 (db_commit (set_status processing v) (rows s)) (next_id s)
                 (files s)).
    destruct (worker_step_claimed t3 (set_status processing v) s1)
      as (v' & fls' & Hstep & Hid & Hout).
    simpl in Hid.
    assert (Hst : status v' = done \/ status v' = failed).
    { destruct (fst (job_try h root_path t3 _)); tauto. }
    assert (Hrows : db_commit v' (rows s1) = db_commit v' (rows s)).
    { simpl. apply db_commit_commit. simpl. congruence. }
    rewrite Hrows in Hstep.
    destruct (commit_fewer_pending v v' (rows s) Hid) as [_ Hlt].
    { destruct Hst as [-> | ->]; discriminate. }
    specialize (Hlt Hin Hp).
    destruct (IH later
                (mkState (_running s1) (starting s1) (workers s1)
                         (db_commit v' (rows s)) (next_id s1) fls'))
      as (s' & Hrun & Hflag & Hdone & Hrel);
      [simpl; lia|lia|].
    exists s'. simpl in Hrel.
    split; [|split; [assumption|split; [assumption|]]].
    + rewrite run_worker_cons.
      replace (worker_step h root_path t1 AtLoop s)
        with (Some (Selected v), s) by (simpl; now rewrite Hq).
      cbv beta iota. rewrite run_worker_cons.
      change (worker_step h root_path t2 (Selected v) s)
        with (Some (Claimed (set_status processing v)), s1).
      cbv beta iota. rewrite run_worker_cons, Hstep. exact Hrun.
    + eapply settled_trans; [|exact Hrel]. now apply settled_commit.
  - apply first_order_by_none in Hq as Hnone.
    destruct clock as [|t1 [|t2 later]]; simpl in Hclock; try lia.
    exists (mkState false (starting s) (workers s) (rows s) (next_id s)
                    (files s)).
    simpl. rewrite Hq. simpl. auto using settled_refl.
Qed.

End Loop.

(** C8: whatever the pipeline does on a claimed job, the worker's step on
    it ends back at the head of the loop: an exception [e] of the [try]
    block leaves the job [failed] with [error_message = str(e)]; a missing
    ffmpeg leaves it [failed] with the "FFmpeg not found" message.  At the
    head of the loop the worker selects a pending job whenever there is one,
    so that, run on its own, it ends with no job pending: row by row, a job
    that was pending is [done] or [failed], and any other row is as it was
    or, too, [done] or [failed]. *)
Theorem failure_isolation (h : Host) (root_path : str) :
  (forall now v s, exists v' fls',
     worker_step h root_path now (Claimed v) s
     = (Some AtLoop,
        mkState (_running s) (starting s) (workers s)
                (db_commit v' (rows s)) (next_id s) fls')
     /\ id v' = id v
     /\ (forall e,
           fst (job_try h root_path now (mkFrame v (rows s) (files s) None))
           = Raise e ->
           status v' = failed /\ error_message v' = Some (str_of_exn e))
     /\ (ffmpeg_absent h (filepath v) ->
         status v' = failed /\ error_message v' = Some ffmpeg_not_found))
  /\ (forall now s, filter_by_status pending (rows s) <> [] ->
        exists v, worker_step h root_path now AtLoop s
                  = (Some (Selected v), s)
                  /\ In v (rows s) /\ status v = pending)
  /\ (forall clock s,
        (3 * pending_count (rows s) + 2 <= List.length clock)%nat ->
        exists s',
          _process_videos h root_path clock s = Some s'
          /\ _running s' = false
          /\ filter_by_status pending (rows s') = []
          /\ Forall2 (fun r r' =>
                        settled r r'
                        /\ (status r = pending ->
                            status r' = done \/ status r' = failed))
                     (rows s) (rows s')).
Proof.
  split; [|split].
  - intros now v s.
    destruct (worker_step_claimed h root_path now v s)
      as (v' & fls' & Hstep & Hid & Hout).
    exists v', fls'.
    split; [exact Hstep|]. split; [exact Hid|]. split.
    + intros e He. rewrite He in Hout. exact Hout.
    + intros Habs.
      rewrite (job_try_tool_missing h root_path now v _ _ Habs) in Hout.
      exact Hout.
  - intros now s Hne. simpl.
    destruct (first (order_by_created_at_asc
                       (filter_by_status pending (rows s)))) as [v|] eqn:Hq.
    + exists v. split; [reflexivity|].
      apply first_order_by_spec in Hq. destruct Hq as (l1 & l2 & Hl & _).
      assert (Hin : In v (filter_by_status pending (rows s))).
      { rewrite Hl. apply in_or_app. right. now left. }
      unfold filter_by_status in Hin. apply filter_In in Hin.
      destruct Hin as [Hin Hp]. apply status_eqb_eq in Hp. auto.
    + apply first_order_by_none in Hq. contradiction.
  - intros clock s Hclock. unfold _process_videos.
    destruct (drain h root_path (pending_count (rows s)) clock s)
      as (s' & Hrun & Hflag & Hnone & Hrel); auto.
    exists s'. repeat split; auto.
    assert (Hnp : forall r', In r' (rows s') -> status r' <> pending).
    { intros r' Hin Hp.
      assert (Hf : In r' (filter_by_status pending (rows s'))).
      { unfold filter_by_status. apply filter_In. split; [assumption|].
        now apply status_eqb_eq. }
      rewrite Hnone in Hf. contradiction. }
    now apply settled_none_pending.
Qed.

(** Two pending jobs on a host without ffmpeg: the worker ends, nothing is
    left pending. *)
Lemma failure_isolation_witness :
  let s := Sample.start_state
             [Sample.new_video 1 "a.mp4" 100; Sample.new_video 2 "b.mp4" 101]
             3 in
  exists s',
    _process_videos Sample.host_without_ffmpeg (lit "/app")
                    (Sample.clock_from 102 8) s = Some s'
    /\ filter_by_status pending (rows s') = [].
Proof.
  intros s.
  destruct (failure_isolation Sample.host_without_ffmpeg (lit "/app"))
    as (_ & _ & Hdrain).
  destruct (Hdrain (Sample.clock_from 102 8) s) as (s' & Hrun & _ & Hp & _).
  - vm_compute. lia.
  - exists s'. split; assumption.
Defined.

(** The same run, evaluated: both jobs end [failed] with the message of the
    missing tool; the second was processed after the first had failed. *)
Example two_jobs_without_ffmpeg :
  let failed_at t v :=
    set_processed_at (Some t)
      (set_error_message (Some ffmpeg_not_found) (set_status failed v)) in
  option_map rows
    (_process_videos Sample.host_without_ffmpeg (lit "/app")
       (Sample.clock_from 102 8)
       (Sample.start_state
          [Sample.new_video 1 "a.mp4" 100; Sample.new_video 2 "b.mp4" 101]
          3))
  = Some [failed_at 104%Z (Sample.new_video 1 "a.mp4" 100);
          failed_at 107%Z (Sample.new_video 2 "b.mp4" 101)].
Proof. vm_compute. reflexivity. Qed.

(** ** Credential *)

Lemma transcribe_audio_without_key (h : Host) (audio_path : str) (fls : fs) :
  openai_api_key h = None ->
  transcribe_audio h audio_path fls
  = (Raise (OpenAIError openai_missing_key), fls).
Proof.
  intros Hkey. unfold transcribe_audio, bind, OpenAI. rewrite Hkey.
  reflexivity.
Qed.

(** C9: on a host without the transcription credential the worker still
    claims the pending job (the row becomes [processing]), extracts the
    audio, and only then meets the missing key, inside the [try] block: the
    job ends [failed] with the client's error as its message. *)
Theorem missing_credential_is_a_job_failure :
  let h := Sample.host_without_key in
  let job := Sample.new_video 1 "a.mp4" 100 in
  let s0 := Sample.start_state [job] 2 in
  worker_step h (lit "/app") 101 AtLoop s0 = (Some (Selected job), s0)
  /\ rows (snd (worker_step h (lit "/app") 102 (Selected job) s0))
     = [set_status processing job]
  /\ option_map rows
       (_process_videos h (lit "/app") (Sample.clock_from 101 5) s0)
     = Some [set_processed_at (Some 103%Z)
               (set_error_message (Some openai_missing_key)
                  (set_status failed job))].
Proof. repeat split; vm_compute; reflexivity. Qed.

(** A job without duration on a host without ffprobe: the probe gives
    [None] and the job still ends [done]. *)
Example job_done_without_probe :
  let job := set_duration_seconds None (Sample.new_video 1 "a.mp4" 100) in
  option_map (map (fun v => (status v, duration_seconds v)))
    (option_map rows
       (_process_videos Sample.host_without_ffprobe (lit "/app")
          (Sample.clock_from 101 5) (Sample.start_state [job] 2)))
  = Some [(done, None)].
Proof. vm_compute. reflexivity. Qed.

(** With the credential present the same job ends [done]. *)
Example job_with_credential :
  option_map (map status)
    (option_map rows
       (_process_videos Sample.good_host (lit "/app")
          (Sample.clock_from 101 5)
          (Sample.start_state [Sample.new_video 1 "a.mp4" 100] 2)))
  = Some [done].
Proof. vm_compute. reflexivity. Qed.

(** The command-line program, for comparison, checks the credential before
    it extracts anything: without a key it exits with status 1 and leaves
    the files as they are. *)
Lemma main_fails_fast_without_key (h : Host) (video_path : str) (fls : fs) :
  openai_api_key h = None ->
  main h video_path fls = (Exit 1, fls).
Proof.
  intros Hkey. unfold main. rewrite Hkey.
  destruct (isfile h video_path); reflexivity.
Qed.

(** * More properties *)

(** ** Timestamps of the detail and search pages *)




(** X1: for a time that is not negative, [_format_timestamp] prints the
    whole seconds as hours, minutes and seconds: the three numbers add up to
    the time rounded down, minutes and seconds are below 60 and take two
    digits each, the hours at least two. *)
Theorem format_timestamp_fields (seconds : Q) :
  (0 <= seconds)%Q ->
  exists h m s,
    _format_timestamp seconds
    = format_0d 2 h ++ lit ":" ++ format_0d 2 m ++ lit ":" ++ format_0d 2 s
    /\ (h * 3600 + m * 60 + s = Qfloor seconds)%Z
    /\ (0 <= h)%Z /\ (0 <= m < 60)%Z /\ (0 <= s < 60)%Z
    /\ (2 <= List.length (format_0d 2 h))%nat
    /\ List.length (format_0d 2 m) = 2%nat
    /\ List.length (format_0d 2 s) = 2%nat.
Proof.
  intros Hs.
  assert (Hn : (0 <= Qfloor seconds)%Z).
  { apply (Qfloor_range seconds 0 (Qfloor seconds + 1)).
    - exact Hs.
    - apply Qlt_floor. }
  exists (Qfloor seconds / 3600)%Z, (Qfloor seconds mod 3600 / 60)%Z,
    ((Qfloor seconds mod 3600) mod 60)%Z.
  unfold _format_timestamp. rewrite int_of_float_floor by exact Hs.
  pose proof (Z.div_mod (Qfloor seconds) 3600 ltac:(lia)) as H1.
  pose proof (Z.mod_pos_bound (Qfloor seconds) 3600 ltac:(lia)) as H2.
  pose proof (Z.div_mod (Qfloor seconds mod 3600) 60 ltac:(lia)) as H3.
  pose proof (Z.mod_pos_bound (Qfloor seconds mod 3600) 60 ltac:(lia)) as H4.
  assert (Hh : (0 <= Qfloor seconds / 3600)%Z)
    by (apply Z.div_pos; lia).
  assert (Hm : (0 <= Qfloor seconds mod 3600 / 60 < 60)%Z).
  { split; [apply Z.div_pos; lia|]. apply Z.div_lt_upper_bound; lia. }
  split; [reflexivity|]. split; [lia|].
  split; [exact Hh|]. split; [exact Hm|]. split; [exact H4|].
  split; [now apply format_0d_min_width|].
  split; apply format_0d_two_digits; lia.
Qed.

Lemma format_timestamp_fields_witness :
  exists h m s,
    _format_timestamp (7323 # 2)%Q
    = format_0d 2 h ++ lit ":" ++ format_0d 2 m ++ lit ":" ++ format_0d 2 s
    /\ (h * 3600 + m * 60 + s = 3661)%Z.
Proof.
  destruct (format_timestamp_fields (7323 # 2)%Q) as (h & m & s & H & Hsum & _).
  - unfold Qle. simpl. lia.
  - exists h, m, s. split; [exact H|exact Hsum].
Defined.



(** A negative time: the page formatter rounds towards zero before it
    divides, the subtitle formatter rounds every field down. *)
Example formatters_differ_below_zero :
  _format_timestamp (-1 # 2)%Q = lit "00:00:00"
  /\ format_srt_time (-1 # 2)%Q = lit "-1:59:59,-500".
Proof. split; vm_compute; reflexivity. Qed.

(** ** Folder scan *)

Lemma str_leb_refl (a : str) : str_leb a a = true.
Proof.
  induction a as [|x a IH]; simpl; [reflexivity|].
  now rewrite N.ltb_irrefl.
Qed.

Lemma str_leb_total (a b : str) : str_leb a b = true \/ str_leb b a = true.
Proof.
  revert b. induction a as [|x a IH]; intros [|y b]; simpl; auto.
  destruct (x <? y)%N eqn:Hxy, (y <? x)%N eqn:Hyx; auto.
Qed.

Lemma str_leb_trans (a b c : str) :
  str_leb a b = true -> str_leb b c = true -> str_leb a c = true.
Proof.
  revert b c. induction a as [|x a IH]; intros [|y b] [|z c]; simpl; auto;
    try discriminate.
  destruct (x <? y)%N eqn:Hxy, (y <? x)%N eqn:Hyx,
           (y <? z)%N eqn:Hyz, (z <? y)%N eqn:Hzy,
           (x <? z)%N eqn:Hxz, (z <? x)%N eqn:Hzx;
    try discriminate; auto;
    repeat match goal with
           | H : (_ <? _)%N = true |- _ => apply N.ltb_lt in H
           | H : (_ <? _)%N = false |- _ => apply N.ltb_ge in H
           end; try lia.
  apply IH.
Qed.

Lemma insert_str_perm (x : str) (l : list str) :
  Permutation (insert_str x l) (x :: l).
Proof.
  induction l as [|y l IH]; simpl; [reflexivity|].
  destruct (str_leb x y); [reflexivity|].
  rewrite IH. apply perm_swap.
Qed.

Lemma sort_strs_perm (l : list str) : Permutation (sort_strs l) l.
Proof.
  induction l as [|x l IH]; simpl; [reflexivity|].
  rewrite insert_str_perm. now constructor.
Qed.

Lemma insert_str_sorted (x : str) (l : list str) :
  StronglySorted (fun a b => str_leb a b = true) l ->
  StronglySorted (fun a b => str_leb a b = true) (insert_str x l).
Proof.
  induction 1 as [|y l Hs IH Hall]; simpl.
  - repeat constructor.
  - destruct (str_leb x y) eqn:Hxy.
    + constructor; [now constructor|].
      constructor; [exact Hxy|].
      eapply Forall_impl; [|exact Hall].
      intros z Hz. eapply str_leb_trans; eassumption.
    + constructor; [exact IH|].
      assert (Hyx : str_leb y x = true)
        by (destruct (str_leb_total x y); congruence).
      rewrite Forall_forall in *. intros z Hz.
      apply (Permutation_in _ (insert_str_perm x l)) in Hz.
      destruct Hz as [<-|Hz]; auto.
Qed.

Lemma sort_strs_sorted (l : list str) :
  StronglySorted (fun a b => str_leb a b = true) (sort_strs l).
Proof.
  induction l as [|x l IH]; simpl; [constructor|].
  now apply insert_str_sorted.
Qed.

(** X3: [scan_folder] raises [ValueError] on a path that is not a
    directory; otherwise its result is in ascending order and holds, once
    per directory entry, the paths of exactly the entries that are files and
    whose extension, lower-cased, is one of [VIDEO_EXTENSIONS]. *)
Theorem scan_folder_spec (p : Platform) (path : str) :
  (isdir p path = false ->
   scan_folder p path
   = Raise (ValueError (lit "Not a valid directory: " ++ path)))
  /\ forall paths, scan_folder p path = Ok paths ->
       exists entries,
         scandir p path = Ok entries
         /\ StronglySorted (fun a b => str_leb a b = true) paths
         /\ Permutation paths
              (map entry_path (filter (is_video_entry p) entries))
         /\ forall x, In x paths <->
              exists e, In e entries /\ entry_is_file e = true
                /\ is_video_extension
                     (lower p (snd (splitext (os_sep p) (os_altsep p)
                                             (entry_name e)))) = true
                /\ entry_path e = x.
Proof.
  unfold scan_folder. split.
  - intros ->. reflexivity.
  - intros paths. destruct (isdir p path); simpl; [|discriminate].
    destruct (scandir p path) as [entries|e]; [|discriminate].
    intros H. injection H as <-. exists entries.
    split; [reflexivity|]. split; [apply sort_strs_sorted|].
    split; [apply sort_strs_perm|].
    intros x. split.
    + intros Hin. apply (Permutation_in _ (sort_strs_perm _)) in Hin.
      apply in_map_iff in Hin. destruct Hin as (e & Hpath & He).
      apply filter_In in He. destruct He as [He Hv].
      unfold is_video_entry in Hv. apply andb_true_iff in Hv.
      exists e. tauto.
    + intros (e & He & Hf & Hext & Hpath).
      apply (Permutation_in _ (Permutation_sym (sort_strs_perm _))).
      apply in_map_iff. exists e. split; [exact Hpath|].
      apply filter_In. split; [exact He|].
      unfold is_video_entry. now rewrite Hf, Hext.
Qed.

Lemma scan_folder_spec_witness :
  In (lit "/videos/b.MKV")
     match scan_folder Sample2.platform (lit "/videos") with
     | Ok paths => paths
     | Raise _ => []
     end.
Proof.
  destruct (scan_folder_spec Sample2.platform (lit "/videos")) as [_ Hok].
  destruct (Hok [lit "/videos/a.mp4"; lit "/videos/b.MKV"] eq_refl)
    as (entries & Hscan & _ & _ & Hin).
  replace (scan_folder Sample2.platform (lit "/videos"))
    with (@Ok (list str) [lit "/videos/a.mp4"; lit "/videos/b.MKV"])
    by (vm_compute; reflexivity).
  apply Hin. exists (Sample2.entry "/videos" "b.MKV" true).
  injection Hscan as <-. repeat split. simpl. auto.
Defined.

(** ** The life of a row *)

Lemma ids_unique (tbl : list Video) (next : Z) (a b : Video) :
  ids_ok tbl next -> In a tbl -> In b tbl -> id a = id b -> a = b.
Proof.
  intros [Hs _]. induction tbl as [|r t IH]; simpl; [tauto|].
  simpl in Hs. apply StronglySorted_inv in Hs. destruct Hs as [Ht Hall].
  rewrite Forall_forall in Hall.
  intros [<-|Ha] [<-|Hb] Hid; auto.
  - specialize (Hall (id b) (in_map id _ _ Hb)). lia.
  - specialize (Hall (id a) (in_map id _ _ Ha)). lia.
Qed.

(** A commit of [v'] over the row [v] of the same id changes that row and
    no other. *)
Lemma commit_one_row (tbl : list Video) (next : Z) (v v' : Video) :
  ids_ok tbl next -> In v tbl -> id v' = id v ->
  Forall2 (fun r r' => r' = r \/ (r = v /\ r' = v')) tbl (db_commit v' tbl).
Proof.
  intros Hids Hin Hid.
  assert (Huniq : forall r, In r tbl -> id r = id v' -> r = v).
  { intros r Hr Hrid. apply (ids_unique tbl next); auto. congruence. }
  clear Hin Hids. unfold db_commit.
  induction tbl as [|r t IH]; simpl; constructor.
  - destruct (id r =? id v')%Z eqn:E; [|auto].
    apply Z.eqb_eq in E. right. split; [|reflexivity].
    apply Huniq; [now left|exact E].
  - apply IH. intros x Hx. apply Huniq. now right.
Qed.

Lemma commit_keeps_others (tbl : list Video) (next : Z) (v v' u : Video) :
  ids_ok tbl next -> In v tbl -> id v' = id v ->
  In u tbl -> u <> v -> In u (db_commit v' tbl).
Proof.
  intros Hids Hv Hid Hu Hne. unfold db_commit. apply in_map_iff.
  exists u. split; [|exact Hu].
  destruct (id u =? id v')%Z eqn:E; [|reflexivity].
  apply Z.eqb_eq in E. exfalso. apply Hne.
  apply (ids_unique tbl next); auto. congruence.
Qed.

Lemma commit_puts (tbl : list Video) (v v' : Video) :
  In v tbl -> id v' = id v -> In v' (db_commit v' tbl).
Proof.
  intros Hv Hid. unfold db_commit. apply in_map_iff.
  exists v. split; [|exact Hv]. now rewrite Hid, Z.eqb_refl.
Qed.

Lemma query_by_filepath_none (path : str) (tbl : list Video) :
  query_by_filepath path tbl = None <-> ~ In path (map filepath tbl).
Proof.
  unfold query_by_filepath. split.
  - intros Hnone Hin. apply in_map_iff in Hin. destruct Hin as (r & <- & Hr).
    pose proof (find_none _ _ Hnone r Hr) as H. simpl in H.
    now rewrite str_eqb_refl in H.
  - intros Hnot. destruct (find _ tbl) as [r|] eqn:E; [|reflexivity].
    apply find_some in E. destruct E as [Hr Heq]. apply str_eqb_eq in Heq.
    exfalso. apply Hnot. rewrite <- Heq. now apply in_map.
Qed.

Lemma enqueue_rows (h : Host) (now : Z) (folder_ path : str) (s s' : State) :
  enqueue h now folder_ path s = Ok s' ->
  (s' = s /\ query_by_filepath path (rows s) <> None)
  \/ (query_by_filepath path (rows s) = None
      /\ exists d fls',
           s' = mkState (_running s) (starting s) (workers s)
                  (rows s
                   ++ [mkVideo (next_id s) (basename h path) path folder_ d
                               pending None None None None None None now
                               None])
                  (next_id s + 1)%Z fls').
Proof.
  unfold enqueue. destruct (query_by_filepath path (rows s)) eqn:Hq.
  - intros H. injection H as <-. left. split; [reflexivity|discriminate].
  - destruct (get_video_duration h path (files s)) as [[d|e] fls'];
      [|discriminate].
    intros H. injection H as <-. right. split; [reflexivity|]. eauto.
Qed.

Section Rows.

Variable h : Host.
Variable root_path : str.

Lemma initial_invariant2 (s : State) : initial s -> invariant2 s.
Proof.
  intros Hinit. split; [now apply initial_invariant|].
  destruct Hinit as (_ & _ & -> & _). constructor.
Qed.

Lemma step_invariant2 (s s' : State) :
  invariant2 s -> step h root_path s s' -> invariant2 s'.
Proof.
  intros [Hinv Hheld] Hstep.
  split; [eapply step_invariant; eassumption|].
  destruct Hstep as [s|s Hpos|s now before p later p' s1 Hw Hstep
                     |s now folder_ path s1 Henq|s video_id].
  - unfold guard. destruct (_running s); exact Hheld.
  - simpl. apply Forall_app. split; [exact Hheld|]. repeat constructor.
  - destruct (sole_worker _ _ _ _ Hinv Hw) as (-> & -> & _ & _).
    simpl in Hw. rewrite Hw in Hheld. inversion Hheld as [|? ? Hp _]; subst.
    simpl. rewrite app_nil_r.
    destruct p as [|v|v|]; simpl in Hstep.
    + destruct (first (order_by_created_at_asc
                         (filter_by_status pending (rows s)))) as [v|] eqn:Hq;
        injection Hstep as <- <-; simpl; repeat constructor.
      * apply (oldest_pending_spec _ _ _ (inv_ids s Hinv) Hq).
      * apply (oldest_pending_spec _ _ _ (inv_ids s Hinv) Hq).
    + injection Hstep as <- <-. simpl. repeat constructor.
      apply (commit_puts _ v); [apply Hp|reflexivity].
    + destruct (run_job h root_path now v (rows s) (files s)) as [[[]|e] fr];
        injection Hstep as <- <-; simpl; repeat constructor.
    + injection Hstep as <- <-. constructor.
  - apply enqueue_rows in Henq.
    destruct Henq as [[-> _]|(_ & d & fls' & ->)]; [exact Hheld|].
    simpl. eapply Forall_impl; [|exact Hheld].
    intros [|v|v|]; simpl; auto; intros [Hin Hst]; split; auto;
      apply in_or_app; now left.
  - unfold retry_commit.
    destruct (db_get video_id (rows s)) as [video|] eqn:Hget; [|exact Hheld].
    destruct (status_eqb (status video) failed) eqn:Hst; [|exact Hheld].
    apply status_eqb_eq in Hst. apply db_get_id in Hget.
    destruct Hget as [_ Hvideo]. simpl.
    eapply Forall_impl; [|exact Hheld].
    intros [|v|v|]; simpl; auto; intros [Hin Hsv]; split; auto;
      apply (commit_keeps_others _ (next_id s) video); auto;
      try apply (inv_ids s Hinv); congruence.
Qed.

Lemma reachable_invariant2 (s : State) :
  reachable h root_path s -> invariant2 s.
Proof.
  induction 1 as [s Hinit|s s' _ IH Hstep].
  - now apply initial_invariant2.
  - eapply step_invariant2; eassumption.
Qed.

Lemma steps_reachable (s s' : State) :
  reachable h root_path s -> steps h root_path s s' ->
  reachable h root_path s'.
Proof.
  intros Hr. induction 1 as [|s s' s'' _ IH Hstep]; [exact Hr|].
  eapply reach_step; [apply IH; exact Hr|exact Hstep].
Qed.

End Rows.

Lemma same_job_refl (r : Video) : same_job r r.
Proof. unfold same_job. auto. Qed.

Lemma legal_refl (a : Status) : legal a a.
Proof. left. reflexivity. Qed.

Lemma evolves_refl (tbl : list Video) : Forall2 evolves tbl tbl.
Proof.
  induction tbl; constructor; auto.
  split; [apply same_job_refl|]. split; [apply legal_refl|auto].
Qed.

Lemma commit_evolves (tbl : list Video) (next : Z) (v v' : Video) :
  ids_ok tbl next -> In v tbl -> evolves v v' ->
  Forall2 evolves tbl (db_commit v' tbl).
Proof.
  intros Hids Hin Hev.
  assert (Hid : id v' = id v) by apply Hev.
  eapply Forall2_impl; [|exact (commit_one_row tbl next v v' Hids Hin Hid)].
  intros r r' [->|[-> ->]]; [|exact Hev].
  split; [apply same_job_refl|]. split; [apply legal_refl|auto].
Qed.

Section Life.

Variable h : Host.
Variable root_path : str.

(** The table over one step: the rows that were there, each moved along the
    status graph at most, and at most one new row after them. *)
Lemma step_rows (s s' : State) :
  reachable h root_path s -> step h root_path s s' ->
  exists old added,
    rows s' = old ++ added
    /\ Forall2 evolves (rows s) old
    /\ (added = []
        \/ exists v, added = [v] /\ status v = pending /\ outputs_none v
             /\ id v = next_id s
             /\ ~ In (filepath v) (map filepath (rows s))).
Proof.
  intros Hreach Hstep. apply reachable_invariant2 in Hreach.
  destruct Hreach as [Hinv Hheld].
  assert (Hsame : forall tbl, tbl = rows s ->
            exists old added,
              tbl = old ++ added /\ Forall2 evolves (rows s) old
              /\ (added = []
                  \/ exists v, added = [v] /\ status v = pending
                       /\ outputs_none v /\ id v = next_id s
                       /\ ~ In (filepath v) (map filepath (rows s)))).
  { intros tbl ->. exists (rows s), []. rewrite app_nil_r.
    split; [reflexivity|]. split; [apply evolves_refl|now left]. }
  assert (Hcommit : forall v v', In v (rows s) -> evolves v v' ->
            exists old added,
              db_commit v' (rows s) = old ++ added
              /\ Forall2 evolves (rows s) old
              /\ (added = []
                  \/ exists u, added = [u] /\ status u = pending
                       /\ outputs_none u /\ id u = next_id s
                       /\ ~ In (filepath u) (map filepath (rows s)))).
  { intros v v' Hin Hev. exists (db_commit v' (rows s)), [].
    rewrite app_nil_r. split; [reflexivity|].
    split; [|now left].
    apply (commit_evolves _ (next_id s) v); auto. apply (inv_ids s Hinv). }
  destruct Hstep as [s|s Hpos|s now before p later p' s1 Hw Hstep
                     |s now folder_ path s1 Henq|s video_id].
  - apply Hsame. unfold guard. destruct (_running s); reflexivity.
  - apply Hsame. reflexivity.
  - destruct (sole_worker _ _ _ _ Hinv Hw) as (-> & -> & _ & _).
    simpl in Hw. rewrite Hw in Hheld. inversion Hheld as [|? ? Hp _]; subst.
    simpl.
    destruct p as [|v|v|]; simpl in Hstep.
    + apply Hsame.
      destruct (first (order_by_created_at_asc
                         (filter_by_status pending (rows s))));
        injection Hstep as <- <-; reflexivity.
    + injection Hstep as <- <-. simpl. destruct Hp as [Hin Hst].
      apply (Hcommit v); [exact Hin|].
      split; [unfold same_job; simpl; auto|].
      split; [right; left; simpl; auto|].
      intros Hd. congruence.
    + destruct Hp as [Hin Hst].
      destruct (run_job_spec h root_path now v (rows s) (files s))
        as (v' & fls' & Hrun & Hsj & _ & Hout).
      rewrite Hrun in Hstep. injection Hstep as <- <-. simpl.
      apply (Hcommit v); [exact Hin|].
      split; [exact Hsj|]. split; [|intros Hd; congruence].
      right. right. left. split; [exact Hst|].
      destruct (fst (job_try h root_path now _)); intuition.
    + injection Hstep as <- <-. apply Hsame. reflexivity.
  - apply enqueue_rows in Henq.
    destruct Henq as [[-> _]|(Hq & d & fls' & ->)]; [now apply Hsame|].
    simpl. eexists (rows s), [_]. split; [reflexivity|].
    split; [apply evolves_refl|]. right. eexists. split; [reflexivity|].
    simpl. repeat split. now apply query_by_filepath_none.
  - unfold retry_commit.
    destruct (db_get video_id (rows s)) as [video|] eqn:Hget;
      [|now apply Hsame].
    destruct (status_eqb (status video) failed) eqn:Hst; [|now apply Hsame].
    apply status_eqb_eq in Hst. apply db_get_id in Hget.
    destruct Hget as [_ Hvideo]. simpl.
    apply (Hcommit video); [exact Hvideo|].
    split; [unfold same_job; simpl; auto|].
    split; [|intros Hd; congruence].
    right. right. right. simpl. auto.
Qed.

(** The id counter moves with the table: by one for each row added. *)
Lemma step_next_id (s s' : State) :
  step h root_path s s' ->
  next_id s'
  = (next_id s
     + Z.of_nat (List.length (rows s') - List.length (rows s)))%Z.
Proof.
  intros Hstep.
  destruct Hstep as [s|s Hpos|s now before p later p' s1 Hw Hstep
                     |s now folder_ path s1 Henq|s video_id].
  - unfold guard. destruct (_running s); simpl; rewrite Nat.sub_diag; lia.
  - simpl. rewrite Nat.sub_diag. lia.
  - destruct p as [|v|v|]; simpl in Hstep.
    + destruct (first (order_by_created_at_asc
                         (filter_by_status pending (rows s))));
        injection Hstep as <- <-; simpl; rewrite Nat.sub_diag; lia.
    + injection Hstep as <- <-. simpl.
      rewrite db_commit_length, Nat.sub_diag. lia.
    + destruct (run_job_spec h root_path now v (rows s) (files s))
        as (v' & fls' & Hrun & _).
      rewrite Hrun in Hstep. injection Hstep as <- <-. simpl.
      rewrite db_commit_length, Nat.sub_diag. lia.
    + injection Hstep as <- <-. simpl. rewrite Nat.sub_diag. lia.
  - apply enqueue_rows in Henq.
    destruct Henq as [[-> _]|(_ & d & fls' & ->)].
    + rewrite Nat.sub_diag. lia.
    + simpl. rewrite length_app. simpl.
      replace (List.length (rows s) + 1 - List.length (rows s))%nat
        with 1%nat by lia.
      reflexivity.
  - unfold retry_commit.
    destruct (db_get video_id (rows s)) as [video|];
      [|rewrite Nat.sub_diag; lia].
    destruct (status_eqb (status video) failed); simpl;
      rewrite ?db_commit_length, Nat.sub_diag; lia.
Qed.

(** X4: one step of the process (a handler's commit or a worker's step)
    deletes no row and reorders none; every row keeps its [id], [filename],
    [filepath], [folder] and [created_at]; its status stays or moves along
    an edge of the graph pending -> processing -> done | failed, failed ->
    pending; a [done] row is not touched; at most one row is added, a
    pending one without outputs, with the next id and a file path that no
    row had; and the id counter moves on by the number of rows added, so no
    id is given twice. *)
Theorem step_evolves (s s' : State) :
  reachable h root_path s -> step h root_path s s' ->
  exists old added,
    rows s' = old ++ added
    /\ Forall2 evolves (rows s) old
    /\ (added = []
        \/ exists v, added = [v] /\ status v = pending /\ outputs_none v
             /\ id v = next_id s
             /\ ~ In (filepath v) (map filepath (rows s)))
    /\ next_id s' = (next_id s + Z.of_nat (List.length added))%Z.
Proof.
  intros Hreach Hstep.
  destruct (step_rows s s' Hreach Hstep)
    as (old & added & Hrows & Hold & Hadded).
  exists old, added. split; [exact Hrows|]. split; [exact Hold|].
  split; [exact Hadded|].
  rewrite (step_next_id s s' Hstep), Hrows, length_app.
  rewrite (Forall2_length Hold). f_equal. f_equal. lia.
Qed.

Lemma persists_refl (tbl : list Video) : Forall2 persists tbl tbl.
Proof.
  induction tbl; constructor; auto. split; [apply same_job_refl|auto].
Qed.

Lemma persists_evolves (a b c : list Video) :
  Forall2 persists a b -> Forall2 evolves b c -> Forall2 persists a c.
Proof.
  intros Hab. revert c. induction Hab as [|x y a b Hxy _ IH]; intros c Hbc;
    inversion Hbc as [|? z ? c' Hyz Hrest]; subst; constructor; [|auto].
  destruct Hxy as [Hs1 Hd1], Hyz as (Hs2 & _ & Hd2).
  split.
  - unfold same_job in *. intuition congruence.
  - intros Hd. specialize (Hd1 Hd). subst y. auto.
Qed.

(** X5: over any number of steps from a reachable state the table only
    grows at its end: every row is still there, in its place, with the same
    [id], [filename], [filepath], [folder] and [created_at], and a row that
    was [done] is there unchanged. *)
Theorem steps_persist (s s' : State) :
  reachable h root_path s -> steps h root_path s s' ->
  extends persists (rows s) (rows s')
  /\ forall r, In r (rows s) -> status r = done -> In r (rows s').
Proof.
  intros Hreach Hsteps.
  assert (Hext : extends persists (rows s) (rows s')).
  { induction Hsteps as [s|s s1 s2 Hsteps IH Hstep].
    - exists (rows s), []. rewrite app_nil_r.
      split; [reflexivity|apply persists_refl].
    - destruct (IH Hreach) as (old & added & Hrows & Hold).
      destruct (step_rows s1 s2 (steps_reachable h root_path s s1
                                      Hreach Hsteps) Hstep)
        as (old2 & added2 & Hrows2 & Hold2 & _).
      rewrite Hrows in Hold2.
      apply Forall2_app_inv_l in Hold2.
      destruct Hold2 as (o1 & o2 & Ho1 & _ & ->).
      exists o1, (o2 ++ added2). split.
      + rewrite Hrows2. now rewrite app_assoc.
      + eapply persists_evolves; eassumption. }
  split; [exact Hext|].
  destruct Hext as (old & added & -> & Hold).
  intros r Hin Hd. apply in_or_app. left.
  clear - Hold Hin Hd. induction Hold as [|x y a b Hxy _ IH]; [contradiction|].
  destruct Hin as [->|Hin].
  - destruct Hxy as [_ Hkeep]. rewrite (Hkeep Hd). now left.
  - right. auto.
Qed.

Lemma evolves_filepaths (a b : list Video) :
  Forall2 evolves a b -> map filepath b = map filepath a.
Proof.
  induction 1 as [|x y a b Hxy _ IH]; simpl; [reflexivity|].
  destruct Hxy as [Hs _]. unfold same_job in Hs. f_equal; [apply Hs|exact IH].
Qed.

(** X6: file paths stay unique: if no two rows share a [filepath], no number
    of steps makes two rows share one. *)
Theorem steps_filepaths_unique (s s' : State) :
  reachable h root_path s -> steps h root_path s s' ->
  NoDup (map filepath (rows s)) -> NoDup (map filepath (rows s')).
Proof.
  intros Hreach Hsteps Hnd.
  induction Hsteps as [s|s s1 s2 Hsteps IH Hstep]; [exact Hnd|].
  specialize (IH Hreach Hnd).
  destruct (step_rows s1 s2 (steps_reachable h root_path s s1
                                  Hreach Hsteps) Hstep)
    as (old & added & -> & Hold & Hadded).
  rewrite map_app, (evolves_filepaths _ _ Hold).
  destruct Hadded as [->|(v & -> & _ & _ & _ & Hfresh)].
  - simpl. now rewrite app_nil_r.
  - simpl. apply NoDup_app; [exact IH|repeat constructor; auto|].
    intros x Hx [<-|[]]. contradiction.
Qed.

End Life.

Lemma done_video_ok (i : Z) (name : string) (t : Z) (segs : list Segment) :
  row_ok (Sample2.done_video i name t segs).
Proof.
  unfold row_ok, outputs_all. simpl. repeat split; discriminate.
Qed.

Lemma library_reachable (h : Host) (root_path : str) :
  reachable h root_path Sample2.library.
Proof.
  apply reach_initial. unfold initial, ids_ok, Sample2.library.
  cbn [Sample.start_state _running starting workers rows next_id].
  split; [reflexivity|]. split; [reflexivity|]. split; [reflexivity|].
  split; [split; simpl; repeat constructor|].
  split; [|reflexivity].
  constructor; [apply done_video_ok|constructor].
Qed.

Lemma library_step :
  step Sample.good_host (lit "/app") Sample2.library Sample2.library_scanned.
Proof.
  apply (step_enqueue _ _ _ 200%Z (lit "/videos") (lit "/videos/b.mp4")).
  reflexivity.
Defined.

(** A scan that finds [b.mp4] beside the finished [a.mp4]. *)
Lemma step_evolves_witness :
  exists old added,
    rows Sample2.library_scanned = old ++ added
    /\ Forall2 evolves (rows Sample2.library) old
    /\ (added = []
        \/ exists v, added = [v] /\ status v = pending /\ outputs_none v
             /\ id v = next_id Sample2.library
             /\ ~ In (filepath v) (map filepath (rows Sample2.library)))
    /\ next_id Sample2.library_scanned
       = (next_id Sample2.library + Z.of_nat (List.length added))%Z.
Proof.
  exact (step_evolves Sample.good_host (lit "/app") Sample2.library
           Sample2.library_scanned
           (library_reachable _ _) library_step).
Defined.

Lemma steps_persist_witness :
  extends persists (rows Sample2.library) (rows Sample2.library_scanned)
  /\ forall r, In r (rows Sample2.library) -> status r = done ->
               In r (rows Sample2.library_scanned).
Proof.
  exact (steps_persist Sample.good_host (lit "/app") Sample2.library
           Sample2.library_scanned (library_reachable _ _)
           (steps_step _ _ _ _ _ (steps_refl _ _ _) library_step)).
Defined.

Lemma steps_filepaths_unique_witness :
  NoDup (map filepath (rows Sample2.library_scanned)).
Proof.
  apply (steps_filepaths_unique Sample.good_host (lit "/app") Sample2.library
           Sample2.library_scanned (library_reachable _ _)
           (steps_step _ _ _ _ _ (steps_refl _ _ _) library_step)).
  simpl. repeat constructor. intros [].
Defined.

(** ** The [scan] handler *)

Lemma query_by_filepath_app (path : str) (tbl more : list Video) :
  query_by_filepath path tbl <> None ->
  query_by_filepath path (tbl ++ more) <> None.
Proof.
  intros H Hnone. apply H. apply query_by_filepath_none.
  apply query_by_filepath_none in Hnone. intros Hin. apply Hnone.
  rewrite map_app. apply in_or_app. now left.
Qed.







(** ** Handlers and steps *)

Section Handlers.

Variable h : Host.
Variable root_path : str.

Lemma steps_trans (a b c : State) :
  steps h root_path a b -> steps h root_path b c -> steps h root_path a c.
Proof.
  intros Hab Hbc. induction Hbc as [|b c d _ IH Hstep]; [exact Hab|].
  eapply steps_step; [apply IH; exact Hab|exact Hstep].
Qed.

Lemma start_processing_steps (s : State) :
  steps h root_path s (start_processing s).
Proof.
  unfold start_processing.
  pose proof (step_guard h root_path s) as Hg.
  unfold guard in *. destruct (_running s); simpl in *.
  - apply steps_refl.
  - eapply steps_step; [eapply steps_step; [apply steps_refl|exact Hg]|].
    apply step_thread_start. simpl. lia.
Qed.

Lemma retry_steps (video_id : Z) (s : State) :
  steps h root_path s (retry video_id s).
Proof.
  unfold retry.
  destruct (db_get video_id (rows s)) as [video|] eqn:Hget;
    [|apply steps_refl].
  destruct (status_eqb (status video) failed); [|apply steps_refl].
  eapply steps_trans; [|apply start_processing_steps].
  eapply steps_step; [apply steps_refl|apply step_retry].
Qed.

Lemma scan_loop_steps (clock : nat -> Z) (folder_ : str) (paths : list str) :
  forall added s added' s',
    scan_loop h clock folder_ paths added s = Ok (added', s') ->
    steps h root_path s s'.
Proof.
  induction paths as [|path rest IH]; intros added s added' s'; simpl.
  - intros H. injection H as _ <-. apply steps_refl.
  - destruct (query_by_filepath path (rows s)); [apply IH|].
    destruct (enqueue h (clock added) folder_ path s) as [s1|e] eqn:Henq;
      [|discriminate].
    intros H. eapply steps_trans; [|eapply IH; exact H].
    eapply steps_step; [apply steps_refl|].
    eapply step_enqueue. exact Henq.
Qed.

(** X9: the handlers are made of steps of the process: what [retry],
    [start_processing] and a [scan] that answers leave behind is reachable
    whenever the state they started from is, so every invariant of the
    reachable states holds after them. *)
Theorem handlers_stay_reachable (s : State) :
  reachable h root_path s ->
  reachable h root_path (start_processing s)
  /\ (forall video_id, reachable h root_path (retry video_id s))
  /\ (forall p clock form_folder s1 fl,
        scan h p clock form_folder s = Ok (s1, fl) ->
        reachable h root_path s1).
Proof.
  intros Hreach. split; [|split].
  - eapply steps_reachable; [exact Hreach|apply start_processing_steps].
  - intros video_id. eapply steps_reachable; [exact Hreach|apply retry_steps].
  - intros p clock form_folder s1 fl. unfold scan.
    destruct (negb (truthy (strip form_folder))
              || negb (isdir p (strip form_folder))).
    { intros H. injection H as <- _. exact Hreach. }
    destruct (scan_folder p (strip form_folder)) as [paths|e].
    + destruct paths as [|path rest].
      { intros H. injection H as <- _. exact Hreach. }
      destruct (scan_loop h clock (strip form_folder) (path :: rest) 0 s)
        as [[added s']|e] eqn:Hloop; [|discriminate].
      apply scan_loop_steps in Hloop.
      destruct (0 <? added)%nat; intros H; injection H as <- _.
      * eapply steps_reachable; [exact Hreach|].
        eapply steps_trans; [exact Hloop|apply start_processing_steps].
      * eapply steps_reachable; eassumption.
    + destruct e; try discriminate.
      intros H. injection H as <- _. exact Hreach.
Qed.

End Handlers.

Lemma handlers_stay_reachable_witness :
  reachable Sample.good_host (lit "/app")
            (start_processing Sample2.library)
  /\ reachable Sample.good_host (lit "/app") (retry 1 Sample2.library).
Proof.
  destruct (handlers_stay_reachable Sample.good_host (lit "/app")
              Sample2.library (library_reachable _ _)) as (H1 & H2 & _).
  split; [exact H1|exact (H2 1%Z)].
Defined.

(** ** Downloads *)

(** X10: in a reachable state [download] sends a file only for a job that is
    [done], and then the file is that job's [txt_path] or [srt_path],
    according to the type asked for; for a job in any other status, and for
    any other file type, the answer is the "File not available" redirect. *)
Theorem download_only_when_done (h : Host) (root_path : str) (s : State)
  (video_id : Z) (file_type : str) :
  reachable h root_path s ->
  (forall path, download video_id file_type s = SendFile path ->
     exists video,
       db_get video_id (rows s) = Some video /\ status video = done
       /\ ((file_type = lit "txt" /\ txt_path video = Some path)
           \/ (file_type = lit "srt" /\ srt_path video = Some path)))
  /\ (forall video,
        db_get video_id (rows s) = Some video ->
        status video <> done
        \/ (file_type <> lit "txt" /\ file_type <> lit "srt") ->
        download video_id file_type s
        = RedirectDetail (mkFlash (lit "File not available.")
                                  (lit "warning"))).
Proof.
  intros Hreach. apply reachable_invariant in Hreach.
  pose proof (inv_rows s Hreach) as Hrows. rewrite Forall_forall in Hrows.
  assert (Hnone : forall video, db_get video_id (rows s) = Some video ->
            status video <> done ->
            txt_path video = None /\ srt_path video = None).
  { intros video Hget Hnd. apply db_get_id in Hget. destruct Hget as [_ Hin].
    specialize (Hrows _ Hin). unfold row_ok, outputs_none in Hrows.
    destruct (status video); solve [tauto | congruence]. }
  unfold download. split.
  - intros path. destruct (db_get video_id (rows s)) as [video|] eqn:Hget;
      [|discriminate].
    intros H. exists video. split; [reflexivity|].
    assert (Hpaths : (file_type = lit "txt" /\ txt_path video = Some path)
                     \/ (file_type = lit "srt"
                         /\ srt_path video = Some path)).
    { destruct (str_eqb file_type (lit "txt")) eqn:Et;
        destruct (txt_path video) as [tp|]; simpl in H;
        try (destruct (truthy tp); simpl in H);
        try (injection H as <-; apply str_eqb_eq in Et; now left);
        destruct (str_eqb file_type (lit "srt")) eqn:Es;
        destruct (srt_path video) as [sp|]; simpl in H;
        try (destruct (truthy sp); simpl in H); try discriminate;
        injection H as <-; apply str_eqb_eq in Es; now right. }
    split; [|exact Hpaths].
    destruct (status_eqb (status video) done) eqn:Hst;
      [now apply status_eqb_eq|].
    assert (Hnd : status video <> done).
    { intros Hc. apply status_eqb_eq in Hc. congruence. }
    destruct (Hnone video eq_refl Hnd) as [Ht Hs].
    destruct Hpaths as [[_ Hp]|[_ Hp]]; congruence.
  - intros video Hget Hcase. rewrite Hget.
    destruct Hcase as [Hnd|[Ht Hs]].
    + destruct (Hnone video Hget Hnd) as [-> ->]. simpl.
      now rewrite !andb_false_r.
    + destruct (str_eqb file_type (lit "txt")) eqn:Et;
        [apply str_eqb_eq in Et; contradiction|].
      destruct (str_eqb file_type (lit "srt")) eqn:Es;
        [apply str_eqb_eq in Es; contradiction|].
      reflexivity.
Qed.

Lemma download_only_when_done_witness :
  exists video,
    db_get 1 (rows Sample2.library) = Some video /\ status video = done
    /\ ((lit "txt" = lit "txt"
         /\ txt_path video = Some (lit "/app/output/a.mp4.txt"))
        \/ (lit "txt" = lit "srt"
            /\ srt_path video = Some (lit "/app/output/a.mp4.txt"))).
Proof.
  apply (proj1 (download_only_when_done Sample.good_host (lit "/app")
                  Sample2.library 1 (lit "txt") (library_reachable _ _))).
  reflexivity.
Defined.

(** ** Listings *)

Lemma insert_desc_perm (v : Video) (l : list Video) :
  Permutation (insert_by_created_at_desc v l) (v :: l).
Proof.
  induction l as [|u l IH]; simpl; [reflexivity|].
  destruct (created_at u <=? created_at v)%Z; [reflexivity|].
  rewrite IH. apply perm_swap.
Qed.

Lemma order_desc_perm (l : list Video) :
  Permutation (order_by_created_at_desc l) l.
Proof.
  induction l as [|v l IH]; simpl; [reflexivity|].
  rewrite insert_desc_perm. now constructor.
Qed.

Lemma insert_desc_sorted (v : Video) (l : list Video) :
  StronglySorted (fun a b => (created_at b <= created_at a)%Z) l ->
  StronglySorted (fun a b => (created_at b <= created_at a)%Z)
                 (insert_by_created_at_desc v l).
Proof.
  induction 1 as [|u l Hs IH Hall]; simpl.
  - repeat constructor.
  - destruct (created_at u <=? created_at v)%Z eqn:E.
    + apply Z.leb_le in E. constructor; [now constructor|].
      constructor; [exact E|].
      eapply Forall_impl; [|exact Hall]. simpl. intros; lia.
    + apply Z.leb_gt in E. constructor; [exact IH|].
      rewrite Forall_forall in *. intros z Hz.
      apply (Permutation_in _ (insert_desc_perm v l)) in Hz.
      destruct Hz as [<-|Hz]; [lia|auto].
Qed.

Lemma order_desc_sorted (l : list Video) :
  StronglySorted (fun a b => (created_at b <= created_at a)%Z)
                 (order_by_created_at_desc l).
Proof.
  induction l as [|v l IH]; simpl; [constructor|].
  now apply insert_desc_sorted.
Qed.

Lemma count_by_status (tbl : list Video) :
  (List.length (filter_by_status done tbl)
   + List.length (filter_by_status processing tbl)
   + List.length (filter_by_status pending tbl)
   + List.length (filter_by_status failed tbl))%nat
  = List.length tbl.
Proof.
  unfold filter_by_status. induction tbl as [|r t IH]; simpl; [reflexivity|].
  destruct (status r); simpl; lia.
Qed.

(** X11: [index] and [api_status] list every job exactly once, newest first
    (by [created_at]), [api_status] with the job's own id, name, folder,
    duration, status and preview; both report the same four counts, which
    add up to the number of jobs listed. *)
Theorem api_status_lists_all (s : State) :
  exists videos,
    fst (index s) = videos
    /\ snd (index s) = fst (api_status s)
    /\ snd (api_status s) = map summary videos
    /\ Permutation videos (rows s)
    /\ StronglySorted (fun a b => (created_at b <= created_at a)%Z) videos
    /\ (count_done (fst (api_status s))
        + count_processing (fst (api_status s))
        + count_pending (fst (api_status s))
        + count_failed (fst (api_status s)))%nat
       = List.length (snd (api_status s)).
Proof.
  exists (order_by_created_at_desc (rows s)).
  split; [reflexivity|]. split; [reflexivity|].
  split; [reflexivity|]. split; [apply order_desc_perm|].
  split; [apply order_desc_sorted|].
  unfold api_status, count. simpl. rewrite count_by_status, length_map.
  apply Permutation_length. symmetry. apply order_desc_perm.
Qed.

(** ** Search *)

Lemma starts_with_spec (needle hay : str) :
  starts_with needle hay = true <-> exists post, hay = needle ++ post.
Proof.
  revert hay. induction needle as [|x n IH]; intros hay; simpl.
  - split; [intros _; now exists hay|reflexivity].
  - destruct hay as [|y hay'].
    + split; [discriminate|intros [post H]; discriminate].
    + rewrite andb_true_iff, N.eqb_eq, IH. split.
      * intros [-> [post ->]]. now exists post.
      * intros [post H]. injection H as -> ->. split; [reflexivity|].
        now exists post.
Qed.

(** [needle in haystack]: the needle is a contiguous part of it. *)
Lemma contains_spec (needle hay : str) :
  contains needle hay = true
  <-> exists pre post, hay = pre ++ needle ++ post.
Proof.
  induction hay as [|y hay' IH].
  - simpl. rewrite orb_false_r, starts_with_spec. split.
    + intros [post H]. now exists [], post.
    + intros (pre & post & H). destruct pre; [now exists post|discriminate].
  - cbn [contains]. rewrite orb_true_iff, IH, starts_with_spec. split.
    + intros [[post H]|(pre & post & H)].
      * now exists [], post.
      * exists (y :: pre), post. simpl. now rewrite H.
    + intros (pre & post & H). destruct pre as [|z pre].
      * left. now exists post.
      * right. injection H as _ H. now exists pre, post.
Qed.

Lemma in_enumerate {A : Type} (l : list A) :
  forall (start i : Z) (x : A),
    In (i, x) (enumerate start l)
    <-> (start <= i)%Z /\ nth_error l (Z.to_nat (i - start)) = Some x.
Proof.
  induction l as [|y l IH]; intros start i x; simpl.
  - split; [contradiction|]. intros [_ H].
    destruct (Z.to_nat (i - start)); discriminate.
  - rewrite IH. split.
    + intros [H|[Hle Hnth]].
      * injection H as <- <-. rewrite Z.sub_diag. simpl. split; [lia|auto].
      * split; [lia|].
        replace (Z.to_nat (i - start)) with (S (Z.to_nat (i - (start + 1))))
          by lia.
        exact Hnth.
    + intros [Hle Hnth]. destruct (Z.eq_dec i start) as [->|Hne].
      * rewrite Z.sub_diag in Hnth. simpl in Hnth. injection Hnth as ->.
        now left.
      * right. split; [lia|].
        replace (Z.to_nat (i - start)) with (S (Z.to_nat (i - (start + 1))))
          in Hnth by lia.
        exact Hnth.
Qed.

(** The loop of [search] over the segments of one video, as a filter. *)
Lemma find_matches_filter (p : Platform) (highlight : str -> str -> str)
  (query : str) (segments : list Segment) :
  find_matches p highlight query segments
  = map (fun ie => mkMatch (fst ie) (_format_timestamp (seg_start (snd ie)))
                           (highlight (seg_text (snd ie)) query))
        (filter (fun ie => contains (lower p query)
                                    (lower p (seg_text (snd ie))))
                (enumerate 0 segments)).
Proof.
  unfold find_matches. generalize (enumerate 0 segments) as l.
  assert (H : forall l acc,
    fold_left
      (fun matches (ie : Z * Segment) =>
         if contains (lower p query) (lower p (seg_text (snd ie)))
         then matches ++ [mkMatch (fst ie)
                            (_format_timestamp (seg_start (snd ie)))
                            (highlight (seg_text (snd ie)) query)]
         else matches) l acc
    = acc ++ map (fun ie => mkMatch (fst ie)
                              (_format_timestamp (seg_start (snd ie)))
                              (highlight (seg_text (snd ie)) query))
                 (filter (fun ie => contains (lower p query)
                                      (lower p (seg_text (snd ie)))) l)).
  { induction l as [|ie l IH]; intros acc; simpl.
    - now rewrite app_nil_r.
    - rewrite IH.
      destruct (contains (lower p query) (lower p (seg_text (snd ie))));
        [|reflexivity].
      simpl. now rewrite <- app_assoc. }
  intros l. apply (H l []).
Qed.

(** The loop of [search] over the videos, one video at a time. *)
Lemma search_loop_flat_map (p : Platform) (highlight : str -> str -> str)
  (query : str) (videos : list Video) :
  let entry video :=
    match segments_json video with
    | None => []
    | Some segments =>
        match find_matches p highlight query segments with
        | [] => []
        | m :: ms => [(video, m :: ms)]
        end
    end in
  search_loop p highlight query videos
  = (flat_map entry videos,
     list_sum (map (fun r => List.length (snd r)) (flat_map entry videos))).
Proof.
  intros entry. unfold search_loop.
  assert (H : forall l (acc : list (Video * list Match) * nat),
    fold_left
      (fun acc video =>
         match segments_json video with
         | None => acc
         | Some segments =>
             match find_matches p highlight query segments with
             | [] => acc
             | _ :: _ =>
                 (fst acc ++ [(video,
                               find_matches p highlight query segments)],
                  (snd acc
                   + List.length (find_matches p highlight query segments))
                  %nat)
             end
         end) l acc
    = (fst acc ++ flat_map entry l,
       (snd acc + list_sum (map (fun r => List.length (snd r))
                                (flat_map entry l)))%nat)).
  { induction l as [|v l IH]; intros [res n]; cbn [fold_left flat_map].
    - cbn. now rewrite app_nil_r, Nat.add_0_r.
    - rewrite IH.
      assert (Hv : entry v
                   = match segments_json v with
                     | None => []
                     | Some segments =>
                         match find_matches p highlight query segments with
                         | [] => []
                         | m :: ms => [(v, m :: ms)]
                         end
                     end) by reflexivity.
      rewrite Hv. clear Hv.
      destruct (segments_json v) as [segs|]; [|reflexivity].
      destruct (find_matches p highlight query segs) as [|m ms];
        [reflexivity|].
      cbn [fst snd]. rewrite <- app_assoc, map_app, list_sum_app.
      cbn [app map list_sum snd List.length fold_right]. f_equal.
      rewrite Nat.add_0_r. cbn [List.length]. lia. }
  apply (H videos ([], 0%nat)).
Qed.

(** Every result of [search] is a [done] job with matches, and every match
    comes from a segment of that job that contains the query. *)
Lemma search_sound (p : Platform) (highlight : str -> str -> str)
  (arg_q : str) (s : State) (video : Video) (matches : list Match) :
  In (video, matches) (snd (fst (search p highlight arg_q s))) ->
  In video (rows s) /\ status video = done /\ matches <> []
  /\ exists segments,
       segments_json video = Some segments
       /\ forall m, In m matches ->
            exists seg,
              (0 <= match_index m)%Z
              /\ nth_error segments (Z.to_nat (match_index m)) = Some seg
              /\ contains (lower p (strip arg_q)) (lower p (seg_text seg))
                 = true
              /\ match_timestamp m = _format_timestamp (seg_start seg)
              /\ match_text m = highlight (seg_text seg) (strip arg_q).
Proof.
  unfold search. destruct (truthy (strip arg_q)); [|intros []].
  rewrite search_loop_flat_map. cbn [fst snd].
  intros Hin. apply in_flat_map in Hin.
  destruct Hin as (v & Hv & Hin).
  unfold filter_by_status in Hv. apply filter_In in Hv.
  destruct Hv as [Hrow Hst]. apply status_eqb_eq in Hst.
  destruct (segments_json v) as [segs|] eqn:Hsegs; [|contradiction].
  destruct (find_matches p highlight (strip arg_q) segs) as [|m ms] eqn:Hm;
    [contradiction|].
  destruct Hin as [Heq|[]]. injection Heq as <- <-.
  split; [exact Hrow|]. split; [exact Hst|]. split; [discriminate|].
  exists segs. split; [exact Hsegs|].
  intros m' Hm'. rewrite <- Hm, find_matches_filter in Hm'.
  apply in_map_iff in Hm'. destruct Hm' as ([i seg] & <- & Hie).
  apply filter_In in Hie. destruct Hie as [Hie Hhit]. cbn [fst snd] in *.
  apply in_enumerate in Hie. destruct Hie as [Hle Hnth].
  rewrite Z.sub_0_r in Hnth. exists seg.
  split; [exact Hle|]. split; [exact Hnth|].
  split; [exact Hhit|]. split; reflexivity.
Qed.

(** X12: what [search] hands to the template.  A blank query finds nothing.
    Otherwise: [total_matches] is the number of matches over all results;
    every result is a [done] job of the table with at least one match; every
    match of a result points, by its index, at a segment of that job whose
    text contains the query when both are lowered, and carries that
    segment's start as its timestamp; and no such segment of a [done] job is
    left out. *)
Theorem search_spec (p : Platform) (highlight : str -> str -> str)
  (arg_q : str) (s : State) :
  let query := strip arg_q in
  let results := snd (fst (search p highlight arg_q s)) in
  let total_matches := snd (search p highlight arg_q s) in
  let hit (seg : Segment) :=
    exists pre post,
      lower p (seg_text seg) = pre ++ lower p query ++ post in
  fst (fst (search p highlight arg_q s)) = query
  /\ (query = [] -> results = [])
  /\ total_matches = list_sum (map (fun r => List.length (snd r)) results)
  /\ (forall video matches, In (video, matches) results ->
        In video (rows s) /\ status video = done /\ matches <> []
        /\ exists segments,
             segments_json video = Some segments
             /\ forall m, In m matches ->
                  exists seg,
                    (0 <= match_index m)%Z
                    /\ nth_error segments (Z.to_nat (match_index m))
                       = Some seg
                    /\ hit seg
                    /\ match_timestamp m = _format_timestamp (seg_start seg)
                    /\ match_text m = highlight (seg_text seg) query)
  /\ (query <> [] ->
      forall video segments i seg,
        In video (rows s) -> status video = done ->
        segments_json video = Some segments ->
        nth_error segments i = Some seg -> hit seg ->
        exists matches m,
          In (video, matches) results /\ In m matches
          /\ match_index m = Z.of_nat i).
Proof.
  intros query results total_matches hit.
  subst results total_matches. unfold search. fold query.
  destruct (truthy query) eqn:Ht.
  2:{ cbn [truthy fst snd map list_sum fold_right].
      split; [reflexivity|]. split; [reflexivity|]. split; [reflexivity|].
      split; [intros video matches []|].
      intros H. destruct query; [now contradiction H|discriminate]. }
  rewrite search_loop_flat_map. cbn [fst snd].
  split; [reflexivity|].
  split; [intros H; rewrite H in Ht; discriminate|].
  split; [reflexivity|]. split.
  - intros video matches Hin.
    destruct (search_sound p highlight arg_q s video matches)
      as (Hrow & Hst & Hne & segs & Hsegs & Hms).
    { unfold search. fold query. rewrite Ht, search_loop_flat_map.
      exact Hin. }
    split; [exact Hrow|]. split; [exact Hst|]. split; [exact Hne|].
    exists segs. split; [exact Hsegs|].
    intros m Hm. destruct (Hms m Hm) as (seg & H0 & Hnth & Hhit & Hts & Htx).
    exists seg. split; [exact H0|]. split; [exact Hnth|].
    split; [now apply contains_spec|]. split; [exact Hts|exact Htx].
  - intros _ video segments i seg Hrow Hst Hsegs Hnth Hhit.
    assert (Hm : In (mkMatch (Z.of_nat i) (_format_timestamp (seg_start seg))
                             (highlight (seg_text seg) query))
                    (find_matches p highlight query segments)).
    { rewrite find_matches_filter.
      apply in_map_iff. exists (Z.of_nat i, seg). split; [reflexivity|].
      apply filter_In. split.
      - apply in_enumerate. split; [lia|].
        now rewrite Z.sub_0_r, Nat2Z.id.
      - cbn [snd]. now apply contains_spec. }
    exists (find_matches p highlight query segments), (mkMatch (Z.of_nat i)
              (_format_timestamp (seg_start seg))
              (highlight (seg_text seg) query)).
    split; [|split; [exact Hm|reflexivity]].
    apply in_flat_map. exists video. split.
    + unfold filter_by_status. apply filter_In. split; [exact Hrow|].
      now apply status_eqb_eq.
    + rewrite Hsegs.
      destruct (find_matches p highlight query segments); [contradiction|].
      now left.
Qed.

(** ** Files, continued *)

Lemma str_eqb_neq (a b : str) : str_eqb a b = false <-> a <> b.
Proof.
  unfold str_eqb. destruct (list_eq_dec N.eq_dec a b); split; congruence.
Qed.

Lemma path_exists_put_same (path : str) (content : list N) (fls : fs) :
  path_exists path (put_file path content fls) = true.
Proof. unfold path_exists, put_file. simpl. now rewrite str_eqb_refl. Qed.

Lemma path_exists_unlink_other (p q : str) (fls : fs) :
  p <> q -> path_exists p (unlink q fls) = path_exists p fls.
Proof.
  intros Hne. unfold path_exists, unlink.
  induction fls as [|e t IH]; simpl; [reflexivity|].
  destruct (str_eqb (fst e) q) eqn:Eq; simpl.
  - apply str_eqb_eq in Eq.
    assert (Hp : str_eqb (fst e) p = false)
      by (apply str_eqb_neq; congruence).
    now rewrite Hp.
  - now rewrite IH.
Qed.

Lemma path_exists_put_file (p q : str) (content : list N) (fls : fs) :
  path_exists p fls = true -> path_exists p (put_file q content fls) = true.
Proof.
  intros H. destruct (list_eq_dec N.eq_dec p q) as [->|Hne].
  - apply path_exists_put_same.
  - unfold put_file. change (path_exists p ((q, content) :: unlink q fls))
      with (str_eqb q p || path_exists p (unlink q fls)).
    rewrite path_exists_unlink_other by exact Hne. rewrite H.
    apply orb_true_r.
Qed.

Lemma path_exists_written (p : str) (written : list (str * list N)) :
  forall fls, path_exists p fls = true ->
    path_exists p (fold_left (fun f w => put_file (fst w) (snd w) f)
                             written fls) = true.
Proof.
  induction written as [|w t IH]; intros fls H; simpl; [exact H|].
  apply IH. now apply path_exists_put_file.
Qed.

Lemma read_file_unlink_other (p q : str) (fls : fs) :
  p <> q -> read_file p (unlink q fls) = read_file p fls.
Proof.
  intros Hne. unfold read_file, unlink. f_equal.
  induction fls as [|e t IH]; simpl; [reflexivity|].
  destruct (str_eqb (fst e) q) eqn:Eq; simpl.
  - apply str_eqb_eq in Eq.
    assert (Hp : str_eqb (fst e) p = false)
      by (apply str_eqb_neq; congruence).
    now rewrite Hp.
  - now rewrite IH.
Qed.

Lemma read_file_put_other (p q : str) (content : list N) (fls : fs) :
  p <> q -> read_file p (put_file q content fls) = read_file p fls.
Proof.
  intros Hne. unfold put_file.
  change (read_file p ((q, content) :: unlink q fls))
    with (option_map snd
            (if str_eqb q p then Some (q, content)
             else find (fun e => str_eqb (fst e) p) (unlink q fls))).
  assert (Hq : str_eqb q p = false) by (apply str_eqb_neq; congruence).
  rewrite Hq. now apply read_file_unlink_other.
Qed.

(** ** Audio extraction *)

Lemma extract_audio_other_error (h : Host) (video_path : str) (fls : fs)
  (e : exn) :
  let audio_path := mkstemp h (lit ".mp3") fls in
  exec h (ffmpeg_argv h video_path audio_path) = Raise e ->
  (forall m, e <> FileNotFoundError m) ->
  (forall m rc out err, e <> CalledProcessError m rc out err) ->
  extract_audio h video_path fls = (Raise e, put_file audio_path [] fls).
Proof.
  intros audio_path Hexec Hnf Hcp.
  unfold extract_audio, try_except, bind, subprocess_run, bind, communicate.
  fold audio_path. rewrite Hexec.
  destruct e; try reflexivity.
  - now contradiction (Hnf msg).
  - now contradiction (Hcp msg returncode0 stdout0 stderr0).
Qed.

(** X13: what [extract_audio] does with its temporary file on the paths
    that the two [except] clauses do not cover.  When ffmpeg runs and exits
    with status 0 the result is the name [mkstemp] gave and that file
    exists; a result is returned in no other case.  When launching ffmpeg
    raises anything but [FileNotFoundError] (for one, a permission error),
    that exception leaves [extract_audio] as it is and the temporary file
    stays behind. *)
Theorem extract_audio_outcomes (h : Host) (video_path : str) (fls : fs) :
  let audio_path := mkstemp h (lit ".mp3") fls in
  let argv := ffmpeg_argv h video_path audio_path in
  (forall cp, exec h argv = Ok cp -> returncode cp = 0%Z ->
     fst (extract_audio h video_path fls) = Ok audio_path
     /\ path_exists audio_path (snd (extract_audio h video_path fls)) = true)
  /\ (forall p, fst (extract_audio h video_path fls) = Ok p ->
        p = audio_path
        /\ exists cp, exec h argv = Ok cp /\ returncode cp = 0%Z)
  /\ (forall e, exec h argv = Raise e ->
        (forall m, e <> FileNotFoundError m) ->
        (forall m rc out err, e <> CalledProcessError m rc out err) ->
        extract_audio h video_path fls
        = (Raise e, put_file audio_path [] fls)
        /\ path_exists audio_path (put_file audio_path [] fls) = true).
Proof.
  intros audio_path argv. split; [|split];
    [| |intros e Hexec Hnf Hcp; split; [|apply path_exists_put_same];
        exact (extract_audio_other_error h video_path fls e Hexec Hnf Hcp)];
    unfold extract_audio, try_except, bind, subprocess_run, bind,
      communicate, check_returncode;
    fold audio_path; fold argv.
  - intros cp Hexec Hrc. rewrite Hexec, Hrc. simpl. split; [reflexivity|].
    apply path_exists_written, path_exists_put_same.
  - intros p. destruct (exec h argv) as [cp|e].
    + destruct (returncode cp =? 0)%Z eqn:Hrc.
      * simpl. intros H. injection H as <-. split; [reflexivity|].
        exists cp. split; [reflexivity|]. now apply Z.eqb_eq.
      * unfold raise. simpl. destruct (bytes_decode (stderr cp));
          discriminate.
    + destruct e; simpl; try discriminate.
      destruct (bytes_decode stderr0); discriminate.
Qed.

Example extract_audio_permission_denied :
  extract_audio Sample2.host_ffmpeg_denied (lit "/videos/a.mp4") []
  = (Raise (OSError (lit "[Errno 13] Permission denied: 'ffmpeg'")),
     [(lit "/tmp/tmp0.mp3", [])]).
Proof. vm_compute. reflexivity. Qed.

(** X14: the [finally] block of the worker: after a job, whatever its
    outcome, the audio file named by [audio_path] is gone. *)
Theorem run_job_removes_temp_audio (h : Host) (root_path : str) (now : Z)
  (v : Video) (tbl : list Video) (fls : fs) (p : str) :
  fr_audio_path (snd (run_job h root_path now v tbl fls)) = Some p ->
  p <> [] ->
  path_exists p (fr_files (snd (run_job h root_path now v tbl fls))) = false.
Proof.
  unfold run_job, try_except_finally.
  destruct (try_except _ _ _) as [r fr1].
  unfold job_finally. destruct fr1 as [v1 tbl1 fls1 ap].
  cbn [fr_audio_path fr_files fr_video fr_rows].
  destruct ap as [q|]; [|cbn; discriminate].
  destruct (truthy q && path_exists q fls1) eqn:E;
    cbn [snd fr_audio_path fr_files]; intros H Hne; injection H as ->.
  - apply path_exists_unlink.
  - destruct p; [congruence|]. simpl in E. exact E.
Qed.

Lemma run_job_removes_temp_audio_witness :
  path_exists (lit "/tmp/tmp0.mp3")
    (fr_files (snd (run_job Sample.good_host (lit "/app") 105
                      (Sample.new_video 1 "a.mp4" 100)
                      [Sample.new_video 1 "a.mp4" 100] []))) = false.
Proof.
  apply (run_job_removes_temp_audio Sample.good_host (lit "/app") 105
           (Sample.new_video 1 "a.mp4" 100)
           [Sample.new_video 1 "a.mp4" 100] [] (lit "/tmp/tmp0.mp3")).
  - vm_compute. reflexivity.
  - discriminate.
Defined.

(** ** One job, continued *)

Lemma probe_if_missing_frame (h : Host) (fr : Frame) :
  exists d fls,
    probe_if_missing h fr
    = (Ok tt, mkFrame (set_duration_seconds d (fr_video fr))
                      (match duration_seconds (fr_video fr) with
                       | Some _ => fr_rows fr
                       | None => db_commit
                                   (set_duration_seconds d (fr_video fr))
                                   (fr_rows fr)
                       end)
                      fls (fr_audio_path fr))
    /\ (duration_seconds (fr_video fr) <> None ->
        d = duration_seconds (fr_video fr) /\ fls = fr_files fr).
Proof.
  destruct fr as [v tbl fls ap].
  unfold probe_if_missing, bind, the_video, in_files, assign,
    db_session_commit, ret.
  cbn [fr_video fr_rows fr_files fr_audio_path].
  destruct (duration_seconds v) as [d|] eqn:Hd.
  - exists (Some d), fls. split; [|auto].
    destruct v; simpl in *. now subst.
  - cbn [fr_video fr_rows fr_files fr_audio_path].
    destruct (get_video_duration_ok h (filepath v) fls) as (d & f0 & ->).
    exists d, f0. split; [reflexivity|congruence].
Qed.

Lemma write_txt_files (h : Host) (segments : list Segment) (path : str)
  (fls fls' : fs) (u : unit) :
  write_txt h segments path fls = (Ok u, fls') ->
  fls' = put_file path (write_txt_body segments []) fls.
Proof.
  unfold write_txt, with_open_w. destruct (open_w_error h path);
    [discriminate|]. intros H. now injection H as _ <-.
Qed.

Lemma write_srt_files (h : Host) (segments : list Segment) (path : str)
  (fls fls' : fs) (u : unit) :
  write_srt h segments path fls = (Ok u, fls') ->
  fls' = put_file path (write_srt_body segments []) fls.
Proof.
  unfold write_srt, with_open_w. destruct (open_w_error h path);
    [discriminate|]. intros H. now injection H as _ <-.
Qed.

(** The [try] block when it comes to its end: the names of the two files,
    what they hold and what the row says. *)
Lemma job_try_ok (h : Host) (root_path : str) (now : Z) (v : Video)
  (tbl : list Video) (fls : fs) (fr1 : Frame) :
  job_try h root_path now (mkFrame v tbl fls None) = (Ok tt, fr1) ->
  exists audio_path segments fls3 suffix,
    let output_dir := path_join h root_path (lit "output") in
    let base := splitext_base h (filename v) in
    let tp := path_join h output_dir
                (base ++ suffix ++ lit "_transcript.txt") in
    let sp := path_join h output_dir
                (base ++ suffix ++ lit "_transcript.srt") in
    (suffix = [] \/ suffix = lit "_" ++ str_of_int (id v))
    /\ fr_audio_path fr1 = Some audio_path
    /\ fr_files fr1
       = put_file sp (write_srt_body segments [])
           (put_file tp (write_txt_body segments []) fls3)
    /\ status (fr_video fr1) = done
    /\ segments_json (fr_video fr1) = Some segments
    /\ transcript_text (fr_video fr1) = Some (segments_to_text segments)
    /\ transcript_preview (fr_video fr1)
       = Some (slice_to 200 (segments_to_text segments))
    /\ txt_path (fr_video fr1) = Some tp
    /\ srt_path (fr_video fr1) = Some sp.
Proof.
  unfold job_try, bind, the_video.
  cbn [fr_video fr_rows fr_files fr_audio_path].
  destruct (probe_if_missing_frame h (mkFrame v tbl fls None))
    as (d & f0 & -> & _).
  unfold in_files, assign, assign_audio_path, db_session_commit, the_files,
    ret.
  cbn [fr_video fr_rows fr_files fr_audio_path].
  destruct (extract_audio h (filepath v) f0) as [[ap|e] f1];
    cbn [fr_video fr_rows fr_files fr_audio_path]; [|discriminate].
  destruct (transcribe_audio h ap f1) as [[segs|e] f2];
    cbn [fr_video fr_rows fr_files fr_audio_path]; [|discriminate].
  destruct (makedirs h (path_join h root_path (lit "output")) f2)
    as [[[]|e] f3];
    cbn [fr_video fr_rows fr_files fr_audio_path]; [|discriminate].
  set (dup := path_exists _ f3 || path_exists _ f3).
  destruct (write_txt h segs _ f3) as [[[]|e] f4] eqn:Htxt;
    cbn [fr_video fr_rows fr_files fr_audio_path]; [|discriminate].
  apply write_txt_files in Htxt.
  destruct (write_srt h segs _ f4) as [[[]|e] f5] eqn:Hsrt;
    cbn [fr_video fr_rows fr_files fr_audio_path]; [|discriminate].
  apply write_srt_files in Hsrt.
  intros H. injection H as <-.
  exists ap, segs, f3, (if dup then lit "_" ++ str_of_int (id v) else []).
  cbn [fr_video fr_rows fr_files fr_audio_path].
  split; [destruct dup; auto|]. split; [reflexivity|].
  split; [subst f5 f4; destruct dup; rewrite <- ?app_assoc; reflexivity|].
  split; [reflexivity|]. split; [reflexivity|]. split; [reflexivity|].
  split; [reflexivity|].
  split; destruct dup; simpl; rewrite <- ?app_assoc; reflexivity.
Qed.

Lemma job_except_frame (now : Z) (exc : exn) (fr : Frame) :
  job_except now exc fr
  = (Ok tt,
     mkFrame (set_processed_at (Some now)
                (set_error_message (Some (str_of_exn exc))
                   (set_status failed (fr_video fr))))
             (db_commit
                (set_processed_at (Some now)
                   (set_error_message (Some (str_of_exn exc))
                      (set_status failed (fr_video fr))))
                (fr_rows fr))
             (fr_files fr) (fr_audio_path fr)).
Proof. reflexivity. Qed.

(** X15: a finished job is consistent with its files.  When the worker
    leaves a job [done], the row holds the segments the service returned,
    their joined text, and the first 200 characters of that text as the
    preview; the two paths of the row are [output/<base>_transcript.txt]
    and [.srt] under the application root, or both with the job's id put
    in; and the files at these paths hold what [write_txt] and [write_srt]
    make of the same segments (as long as the paths differ from each other
    and from the temporary audio file). *)
Theorem done_job_outputs (h : Host) (root_path : str) (now : Z) (v : Video)
  (tbl : list Video) (fls : fs) :
  let fr := snd (run_job h root_path now v tbl fls) in
  status (fr_video fr) = done ->
  exists segments suffix,
    let output_dir := path_join h root_path (lit "output") in
    let base := splitext_base h (filename v) in
    let tp := path_join h output_dir
                (base ++ suffix ++ lit "_transcript.txt") in
    let sp := path_join h output_dir
                (base ++ suffix ++ lit "_transcript.srt") in
    (suffix = [] \/ suffix = lit "_" ++ str_of_int (id v))
    /\ segments_json (fr_video fr) = Some segments
    /\ transcript_text (fr_video fr) = Some (segments_to_text segments)
    /\ transcript_preview (fr_video fr)
       = Some (slice_to 200 (segments_to_text segments))
    /\ txt_path (fr_video fr) = Some tp
    /\ srt_path (fr_video fr) = Some sp
    /\ (fr_audio_path fr <> Some sp ->
        read_file sp (fr_files fr) = Some (write_srt_body segments []))
    /\ (tp <> sp -> fr_audio_path fr <> Some tp ->
        read_file tp (fr_files fr) = Some (write_txt_body segments [])).
Proof.
  unfold run_job, try_except_finally, try_except.
  destruct (job_try h root_path now (mkFrame v tbl fls None))
    as [[[]|e] fr1] eqn:Htry.
  - apply job_try_ok in Htry.
    destruct Htry as (ap & segs & f3 & suffix & Hsuf & Hap & Hfiles & _ & Hsegs
                      & Htext & Hprev & Htp & Hsp).
    unfold job_finally. rewrite Hap.
    assert (Hread : forall F, (F = fr_files fr1
                               \/ F = unlink ap (fr_files fr1)) ->
              let sp := path_join h (path_join h root_path (lit "output"))
                          (splitext_base h (filename v) ++ suffix
                             ++ lit "_transcript.srt") in
              let tp := path_join h (path_join h root_path (lit "output"))
                          (splitext_base h (filename v) ++ suffix
                             ++ lit "_transcript.txt") in
              (Some ap <> Some sp ->
               read_file sp F = Some (write_srt_body segs []))
              /\ (tp <> sp -> Some ap <> Some tp ->
                  read_file tp F = Some (write_txt_body segs []))).
    { intros F HF sp tp. rewrite Hfiles in HF. fold sp tp in HF. split.
      - intros Hne. destruct HF as [->| ->].
        + apply read_put_file.
        + rewrite read_file_unlink_other by congruence.
          apply read_put_file.
      - intros Hts Hne. destruct HF as [->| ->].
        + rewrite read_file_put_other by exact Hts. apply read_put_file.
        + rewrite read_file_unlink_other by congruence.
          rewrite read_file_put_other by exact Hts. apply read_put_file. }
    destruct (truthy ap && path_exists ap (fr_files fr1));
      cbn [snd fr_video fr_files fr_audio_path]; intros _;
      exists segs, suffix; cbn zeta; rewrite ?Hap;
      (split; [exact Hsuf|]); (split; [exact Hsegs|]);
      (split; [exact Htext|]); (split; [exact Hprev|]);
      (split; [exact Htp|]); (split; [exact Hsp|]);
      apply Hread; auto.
  - rewrite job_except_frame.
    destruct (job_finally_spec
                (mkFrame (set_processed_at (Some now)
                            (set_error_message (Some (str_of_exn e))
                               (set_status failed (fr_video fr1))))
                         (db_commit
                            (set_processed_at (Some now)
                               (set_error_message (Some (str_of_exn e))
                                  (set_status failed (fr_video fr1))))
                            (fr_rows fr1))
                         (fr_files fr1) (fr_audio_path fr1)))
      as (fls' & ->).
    simpl. discriminate.
Qed.

(** A job on the sample host: [a.mp4] gives [/app/output/a_transcript.txt]
    and [.srt]. *)
Lemma done_job_outputs_witness :
  let fr := snd (run_job Sample.good_host (lit "/app") 105
                   (Sample.new_video 1 "a.mp4" 100)
                   [Sample.new_video 1 "a.mp4" 100] []) in
  exists segments suffix,
    (suffix = [] \/ suffix = lit "_" ++ str_of_int 1)
    /\ segments_json (fr_video fr) = Some segments
    /\ txt_path (fr_video fr)
       = Some (lit "/app/output/a" ++ suffix ++ lit "_transcript.txt")
    /\ srt_path (fr_video fr)
       = Some (lit "/app/output/a" ++ suffix ++ lit "_transcript.srt").
Proof.
  intros fr.
  destruct (done_job_outputs Sample.good_host (lit "/app") 105
              (Sample.new_video 1 "a.mp4" 100)
              [Sample.new_video 1 "a.mp4" 100] [] eq_refl)
    as (segments & suffix & Hsuf & Hsegs & _ & _ & Htp & Hsp & _).
  exists segments, suffix. split; [exact Hsuf|]. split; [exact Hsegs|].
  split; [exact Htp|exact Hsp].
Defined.

(** X16: the other launch errors in the worker.  When launching ffmpeg
    raises anything but [FileNotFoundError], the job ends [failed] with
    that exception's text; [audio_path] was never assigned, so the
    [finally] block removes nothing and the temporary file that
    [extract_audio] made stays. *)
Theorem run_job_leaves_temp_audio (h : Host) (root_path : str) (now : Z)
  (v : Video) (tbl : list Video) (fls : fs) (e : exn) :
  let fls0 := fr_files (snd (probe_if_missing h (mkFrame v tbl fls None))) in
  let audio_path := mkstemp h (lit ".mp3") fls0 in
  let fr := snd (run_job h root_path now v tbl fls) in
  exec h (ffmpeg_argv h (filepath v) audio_path) = Raise e ->
  (forall m, e <> FileNotFoundError m) ->
  (forall m rc out err, e <> CalledProcessError m rc out err) ->
  status (fr_video fr) = failed
  /\ error_message (fr_video fr) = Some (str_of_exn e)
  /\ fr_audio_path fr = None
  /\ fr_files fr = put_file audio_path [] fls0
  /\ path_exists audio_path (fr_files fr) = true.
Proof.
  intros fls0 audio_path fr Hexec Hnf Hcp. subst fr.
  pose proof (extract_audio_other_error h (filepath v) fls0 e Hexec Hnf Hcp)
    as Hx.
  fold audio_path in Hx. revert Hx. subst audio_path fls0.
  unfold run_job, try_except_finally, try_except, job_try, bind, the_video.
  cbn [fr_video fr_rows fr_files fr_audio_path].
  destruct (probe_if_missing_frame h (mkFrame v tbl fls None))
    as (d & f0 & -> & _).
  unfold in_files. cbn [snd fr_video fr_rows fr_files fr_audio_path].
  intros ->. rewrite job_except_frame. unfold job_finally.
  cbn [snd fr_video fr_rows fr_files fr_audio_path].
  repeat split. apply path_exists_put_same.
Qed.

Lemma run_job_leaves_temp_audio_witness :
  let fr := snd (run_job Sample2.host_ffmpeg_denied (lit "/app") 105
                   (Sample.new_video 1 "a.mp4" 100)
                   [Sample.new_video 1 "a.mp4" 100] []) in
  status (fr_video fr) = failed
  /\ error_message (fr_video fr)
     = Some (lit "[Errno 13] Permission denied: 'ffmpeg'")
  /\ fr_audio_path fr = None
  /\ fr_files fr = [(lit "/tmp/tmp0.mp3", [])]
  /\ path_exists (lit "/tmp/tmp0.mp3") (fr_files fr) = true.
Proof.
  apply (run_job_leaves_temp_audio Sample2.host_ffmpeg_denied (lit "/app")
           105 (Sample.new_video 1 "a.mp4" 100)
           [Sample.new_video 1 "a.mp4" 100] []
           (OSError (lit "[Errno 13] Permission denied: 'ffmpeg'")));
    [reflexivity|discriminate|discriminate].
Defined.

(** ** The detail page *)

Lemma detail_segments_map (segments : list Segment) :
  fold_left
    (fun acc (ie : Z * Segment) =>
       acc ++ [mkDetailSegment (fst ie)
                 (_format_timestamp (seg_start (snd ie)))
                 (seg_text (snd ie))])
    (enumerate 0 segments) []
  = map (fun ie => mkDetailSegment (fst ie)
                     (_format_timestamp (seg_start (snd ie)))
                     (seg_text (snd ie)))
        (enumerate 0 segments).
Proof.
  generalize (enumerate 0 segments) as l.
  assert (H : forall l acc,
    fold_left
      (fun acc (ie : Z * Segment) =>
         acc ++ [mkDetailSegment (fst ie)
                   (_format_timestamp (seg_start (snd ie)))
                   (seg_text (snd ie))]) l acc
    = acc ++ map (fun ie => mkDetailSegment (fst ie)
                              (_format_timestamp (seg_start (snd ie)))
                              (seg_text (snd ie))) l).
  { induction l as [|ie l IH]; intros acc; simpl.
    - now rewrite app_nil_r.
    - rewrite IH. now rewrite <- app_assoc. }
  intros l. apply (H l []).
Qed.

Lemma nth_error_enumerate {A : Type} (l : list A) :
  forall (start : Z) (n : nat),
    nth_error (enumerate start l) n
    = option_map (fun x => ((start + Z.of_nat n)%Z, x)) (nth_error l n).
Proof.
  induction l as [|x l IH]; intros start [|n]; try reflexivity.
  - simpl. now rewrite Z.add_0_r.
  - cbn [enumerate nth_error]. rewrite IH.
    destruct (nth_error l n); [|reflexivity].
    simpl. do 2 f_equal. lia.
Qed.

(** X17: a search hit leads to the segment it was found in.  In a reachable
    state, the index of every match that [search] reports for a job is the
    position of a segment on that job's [detail] page; the entry there has
    the same index and the same timestamp, and the text of the match is the
    highlighted text of that entry. *)
Theorem search_hits_are_detail_segments (h : Host) (root_path : str)
  (p : Platform) (highlight : str -> str -> str) (arg_q : str) (s : State)
  (video : Video) (matches : list Match) (m : Match) :
  reachable h root_path s ->
  In (video, matches) (snd (fst (search p highlight arg_q s))) ->
  In m matches ->
  exists segments entry,
    detail (id video) s = Some (video, segments)
    /\ (0 <= match_index m)%Z
    /\ nth_error segments (Z.to_nat (match_index m)) = Some entry
    /\ ds_index entry = match_index m
    /\ ds_timestamp entry = match_timestamp m
    /\ match_text m = highlight (ds_text entry) (strip arg_q).
Proof.
  intros Hreach Hin Hm. apply reachable_invariant in Hreach.
  destruct (search_sound p highlight arg_q s video matches Hin)
    as (Hrow & _ & _ & segs & Hsegs & Hms).
  destruct (Hms m Hm) as (seg & H0 & Hnth & _ & Hts & Htx).
  assert (Hget : db_get (id video) (rows s) = Some video).
  { destruct (db_get (id video) (rows s)) as [u|] eqn:Hg.
    - apply db_get_id in Hg. destruct Hg as [Hid Hu].
      f_equal. apply (ids_unique (rows s) (next_id s)); auto.
      apply (inv_ids s Hreach).
    - unfold db_get in Hg.
      pose proof (find_none _ _ Hg video Hrow) as Hf. simpl in Hf.
      now rewrite Z.eqb_refl in Hf. }
  unfold detail. rewrite Hget, Hsegs, detail_segments_map.
  eexists _, (mkDetailSegment (match_index m)
                (_format_timestamp (seg_start seg)) (seg_text seg)).
  split; [reflexivity|]. split; [exact H0|].
  split; [|split; [reflexivity|split; [now rewrite Hts|exact Htx]]].
  rewrite nth_error_map, nth_error_enumerate, Hnth. simpl.
  now rewrite Z2Nat.id.
Qed.

(** The query [WORLD] on the sample table: one hit, in segment 1 of job 1. *)
Lemma search_hits_are_detail_segments_witness :
  let video := Sample2.done_video 1 "a.mp4" 100 Sample.hello_world in
  let m := mkMatch 1 (lit "00:00:01") (lit "world") in
  exists segments entry,
    detail 1 Sample2.library = Some (video, segments)
    /\ (0 <= match_index m)%Z
    /\ nth_error segments (Z.to_nat (match_index m)) = Some entry
    /\ ds_index entry = match_index m
    /\ ds_timestamp entry = match_timestamp m
    /\ match_text m = ds_text entry.
Proof.
  intros video m.
  apply (search_hits_are_detail_segments Sample.good_host (lit "/app")
           Sample2.platform (fun text _ => text) (lit " WORLD ")
           Sample2.library video [m] m (library_reachable _ _)).
  - vm_compute. left. reflexivity.
  - left. reflexivity.
Defined.

(** ** Duration probe, continued *)

(** X18: when [get_video_duration] returns a number.  It returns [d]
    exactly when ffprobe could be launched, both of its output streams
    decode, it exited with status 0, and [float] reads [d] from the stripped
    standard output; so a diagnostic stream that does not decode gives
    [None] even when the tool has printed the duration and exited with
    status 0. *)
Theorem get_video_duration_some (h : Host) (path : str) (fls : fs)
  (d : float) :
  fst (get_video_duration h path fls) = Ok (Some d)
  <-> exists cp out err,
        exec h (ffprobe_argv h path) = Ok cp
        /\ locale_decode h (stdout cp) = Ok out
        /\ locale_decode h (stderr cp) = Ok err
        /\ returncode cp = 0%Z
        /\ float_of_str h (strip out) = Some d.
Proof.
  unfold get_video_duration, try_except, bind, subprocess_run_text, bind,
    communicate, lift_result, check_returncode, ret, raise.
  split.
  - destruct (exec h (ffprobe_argv h path)) as [cp|e]; [|discriminate].
    destruct (locale_decode h (stdout cp)) as [out|e1] eqn:Hout;
      [|discriminate].
    destruct (locale_decode h (stderr cp)) as [err|e2] eqn:Herr;
      [|discriminate].
    destruct (returncode cp =? 0)%Z eqn:Hrc; [|discriminate].
    apply Z.eqb_eq in Hrc. cbn [fst snd].
    destruct (float_of_str h (strip out)) as [d'|] eqn:Hf; [|discriminate].
    intros H. injection H as <-. now exists cp, out, err.
  - intros (cp & out & err & -> & -> & -> & Hrc & Hd).
    apply Z.eqb_eq in Hrc. rewrite Hrc. cbn [fst snd]. now rewrite Hd.
Qed.

(** ** The command line, continued *)

Lemma cli_extract_audio_cases (h : Host) (video_path : str) (fls : fs) :
  match cli_extract_audio h video_path fls with
  | (inl out, _) => out <> Exit 0
  | (inr p, f1) =>
      p = mkstemp h (lit ".mp3") fls
  end.
Proof.
  unfold cli_extract_audio.
  destruct (subprocess_run h _ _) as [[cp|e] f]; [reflexivity|].
  destruct e; try discriminate.
  destruct (bytes_decode stderr0); discriminate.
Qed.

Lemma transcript_paths_differ (base : str) :
  base ++ lit "_transcript.txt" <> base ++ lit "_transcript.srt".
Proof. intros H. apply app_inv_head in H. discriminate. Qed.

(** X19: the single-video program.  It exits with status 1 and touches no
    file when the argument is not a file or the key is unset or empty.  Once
    the audio is extracted, the temporary file is gone when the program
    ends, whatever the transcription and the writing did.  When it ends
    with status 0, [<base>_transcript.txt] and [<base>_transcript.srt]
    hold what [write_txt] and [write_srt] make of the same segments (as
    long as neither is the name of the temporary file). *)
Theorem main_spec (h : Host) (video_path : str) (fls : fs) :
  let txt_path := splitext_base h video_path ++ lit "_transcript.txt" in
  let srt_path := splitext_base h video_path ++ lit "_transcript.srt" in
  let audio_path := mkstemp h (lit ".mp3") fls in
  (isfile h video_path = false \/ set_and_truthy (openai_api_key h) = false ->
   main h video_path fls = (Exit 1, fls))
  /\ (forall p fls1,
        isfile h video_path = true ->
        set_and_truthy (openai_api_key h) = true ->
        cli_extract_audio h video_path fls = (inr p, fls1) ->
        path_exists p (snd (main h video_path fls)) = false)
  /\ (fst (main h video_path fls) = Exit 0 ->
      exists segments,
        (audio_path <> srt_path ->
         read_file srt_path (snd (main h video_path fls))
         = Some (write_srt_body segments []))
        /\ (audio_path <> txt_path ->
            read_file txt_path (snd (main h video_path fls))
            = Some (write_txt_body segments []))).
Proof.
  intros txt_path srt_path audio_path. unfold main, set_and_truthy.
  fold txt_path srt_path. split; [|split].
  - intros [Hf|Hk].
    + now rewrite Hf.
    + destruct (isfile h video_path); [|reflexivity]. cbn [negb].
      destruct (openai_api_key h) as [key|]; [|reflexivity].
      now rewrite Hk.
  - intros p fls1 Hf Hk Hx. rewrite Hf. cbn [negb].
    destruct (openai_api_key h) as [key|]; [|discriminate].
    rewrite Hk, Hx. cbn [negb].
    destruct (bind _ _ fls1) as [r f2]. cbn [snd].
    apply path_exists_unlink.
  - destruct (isfile h video_path); [|discriminate]. cbn [negb].
    destruct (match openai_api_key h with
              | Some key => truthy key
              | None => false
              end); [|discriminate].
    cbn [negb].
    pose proof (cli_extract_audio_cases h video_path fls) as Hcases.
    destruct (cli_extract_audio h video_path fls) as [[out|p] f1].
    { cbn [fst]. intros H. contradiction. }
    fold audio_path in Hcases. subst p. unfold bind.
    destruct (transcribe_audio h audio_path f1) as [[segments|e] f2];
      [|discriminate].
    destruct (write_txt h segments txt_path f2) as [[[]|e] f3] eqn:Htxt;
      [|discriminate].
    apply write_txt_files in Htxt.
    destruct (write_srt h segments srt_path f3) as [[[]|e] f4] eqn:Hsrt;
      [|discriminate].
    apply write_srt_files in Hsrt.
    cbn [fst snd]. intros _. exists segments. subst f4 f3. split.
    + intros Hne.
      rewrite read_file_unlink_other
        by (intros Hc; apply Hne; symmetry; exact Hc).
      apply read_put_file.
    + intros Hne.
      rewrite read_file_unlink_other
        by (intros Hc; apply Hne; symmetry; exact Hc).
      rewrite read_file_put_other by apply transcript_paths_differ.
      apply read_put_file.
Qed.

Example main_writes_both_files :
  main Sample2.cli_host (lit "/videos/a.mp4") []
  = (Exit 0,
     [(lit "/videos/a_transcript.srt",
       write_srt_body Sample.hello_world []);
      (lit "/videos/a_transcript.txt",
       write_txt_body Sample.hello_world [])]).
Proof. vm_compute. reflexivity. Qed.

(** ** Timestamps, continued *)


(** ** The subtitle file *)

(** X21: the file [write_srt] leaves: one entry per segment, in the
    original order and with nothing between the entries; the entry of the
    segment at position [k] (from 0) is the number [k + 1], a newline, the
    two timestamps around [ --> ], a newline, the stripped text and two
    newlines.  When the file cannot be opened the error is raised and no
    file changes. *)
Theorem write_srt_file (h : Host) (segments : list Segment)
  (output_path : str) (fls : fs) :
  (fst (write_srt h segments output_path fls) = Ok tt ->
   exists entries,
     read_file output_path (snd (write_srt h segments output_path fls))
     = Some (List.concat entries)
     /\ List.length entries = List.length segments
     /\ forall k seg, nth_error segments k = Some seg ->
          nth_error entries k
          = Some (str_of_int (Z.of_nat k + 1) ++ [LF]
                    ++ format_srt_time (seg_start seg) ++ lit " --> "
                    ++ format_srt_time (seg_end seg) ++ [LF]
                    ++ strip (seg_text seg) ++ [LF] ++ [LF]))
  /\ (forall e, open_w_error h output_path = Some e ->
        write_srt h segments output_path fls = (Raise e, fls)).
Proof.
  unfold write_srt, with_open_w. split.
  - destruct (open_w_error h output_path); [discriminate|]. intros _.
    exists (map (fun p => srt_entry (fst p) (snd p)) (enumerate 1 segments)).
    cbn [snd]. rewrite read_put_file, write_srt_body_entries.
    split; [reflexivity|]. split.
    + rewrite length_map. clear. generalize 1%Z.
      induction segments as [|x l IH]; intros z; simpl; auto.
    + intros k seg Hk.
      rewrite nth_error_map, nth_error_enumerate, Hk.
      cbn [option_map fst snd].
      replace (1 + Z.of_nat k)%Z with (Z.of_nat k + 1)%Z by lia.
      reflexivity.
  - intros e ->. reflexivity.
Qed.
